(** * DocUpdater worker: exploration engine and image comparison

    A shallow embedding of [worker/autodoc_engine.py] and
    [worker/process_run.py].

    Conventions of the embedding.
    - A Python expression that may raise is a value of [py A]: [Raise] or
      [Ret a].  A [try: ... except: ...] block is a [match] on it.
    - Python [str] is [string]; only the ASCII behaviour of [strip] and
      [lower] is modelled.
    - Python [int] is [Z]; [//] is [Z.div] (both round towards minus
      infinity for a positive divisor).
    - A Python [set] of strings is a [gset string], a [dict] with string keys
      a [gmap string _].
    - Selenium, OpenCV and NumPy are libraries outside the repository: their
      entry points are parameters of the sections below. *)

From Stdlib Require Import ZArith QArith Qround Ascii String Strings.Byte List
  Permutation Sorted.
From stdpp Require Import base tactics option list gmap strings pretty.

Local Open Scope Z_scope.

(** ** Computations that may raise *)

Inductive py (A : Type) : Type :=
  | Raise : py A
  | Ret : A → py A.
Arguments Raise {A}.
Arguments Ret {A} _.

Definition py_bind {A B} (k : A → py B) (c : py A) : py B :=
  match c with
  | Raise => Raise
  | Ret a => k a
  end.

(** The monad instances give the notation [x ← c; k]. *)
#[global] Instance py_mbind : MBind py := @py_bind.
#[global] Instance py_mret : MRet py := @Ret.

(** [try: c  except: d] *)
Definition try_except {A} (c : py A) (d : A) : A :=
  match c with
  | Raise => d
  | Ret a => a
  end.

(** ** Python string operations (ASCII) *)

Module PyStr.

(** [str.isspace] on one ASCII character: TAB, LF, VT, FF, CR, FS, GS, RS,
  US and SPACE. *)
Definition isspace (c : ascii) : bool :=
let n := N_of_ascii c in
((9 <=? n) && (n <=? 13) || (28 <=? n) && (n <=? 32))%N.

Fixpoint lstrip (s : string) : string :=
match s with
| EmptyString => EmptyString
| String c s' => if isspace c then lstrip s' else s
end.

Definition rstrip (s : string) : string :=
String.rev (lstrip (String.rev s)).

Definition strip (s : string) : string := rstrip (lstrip s).

Definition lower_char (c : ascii) : ascii :=
let n := N_of_ascii c in
if ((65 <=? n) && (n <=? 90))%N then ascii_of_N (n + 32) else c.

Fixpoint lower (s : string) : string :=
match s with
| EmptyString => EmptyString
| String c s' => String (lower_char c) (lower s')
end.

(** [s[:n]] *)
Fixpoint take (n : nat) (s : string) : string :=
match n, s with
| S n', String c s' => String c (take n' s')
| _, _ => EmptyString
end.

(** [sub in s] *)
Fixpoint contains (sub s : string) : bool :=
String.prefix sub s ||
match s with
| EmptyString => false
| String _ s' => contains sub s'
end.

(** Truth value of a [str]. *)
Definition truthy (s : string) : bool :=
match s with
| EmptyString => false
| String _ _ => true
end.

(** [format(n, "03d")] for [0 <= n]: at least three digits, zero padded. *)
Definition fmt_03d (n : Z) : string :=
let d := pretty n in
if n <? 0 then d
else if n <? 10 then "00" +:+ d
else if n <? 100 then "0" +:+ d
else d.

End PyStr.

(** Truth value of an optional string ([None] and [""] are false). *)
Definition truthy_opt (v : option string) : bool :=
  match v with
  | None => false
  | Some s => PyStr.truthy s
  end.

(** [a or b] where [a] is already evaluated and [b] still has to run. *)
Definition py_or (a : option string) (b : py (option string))
  : py (option string) :=
  if truthy_opt a then Ret a else b.

(** ** Selenium elements *)

Record Location := { loc_x : Z; loc_y : Z }.
Record Size := { size_width : Z; size_height : Z }.

(** What one scan observes of a [WebElement]: each property read either
    raises (stale element, driver error) or yields a value.
    [get_attribute] yields [None] when the attribute is absent. *)
Record WebElement := {
  el_text : py string;
  el_get_attribute : string → py (option string);
  el_location : py Location;
  el_tag_name : py string;
  el_size : py Size;
  el_is_displayed : py bool;
  el_is_enabled : py bool
}.

(** ** DeterministicExplorer *)

Record LogEntry := {
  log_timestamp : Z;
  log_signature : string;
  log_text : string
}.

Record DeterministicExplorer := {
  visited_signatures : gset string;
  interaction_log : list LogEntry
}.

Definition avoid_keywords : list string :=
  ["logout"; "sign out"; "delete"; "remove";
   "exit"; "cancel"; "close"; "back"].

(** [DeterministicExplorer()] *)
Definition new_explorer : DeterministicExplorer :=
  {| visited_signatures := ∅; interaction_log := [] |}.

(** The text [get_element_signature] settles on:
    [text.strip() or aria-label or name or id or "element"]. *)
Definition signature_text (el : WebElement) : py string :=
  t ← el_text el;
  a ← py_or (Some (PyStr.strip t)) (el_get_attribute el "aria-label");
  b ← py_or a (el_get_attribute el "name");
  c ← py_or b (el_get_attribute el "id");
  d ← py_or c (Ret (Some "element"));
  match d with
  | Some s => Ret s
  | None => Raise
  end.

Definition get_element_signature (el : WebElement) : option string :=
  try_except
    (text ← signature_text el;
     loc ← el_location el;
     tag ← el_tag_name el;
     Ret (Some (tag +:+ "_" +:+ PyStr.take 30 text +:+ "_" +:+
                pretty (loc_x loc) +:+ "_" +:+ pretty (loc_y loc))))
    None.

(** The text [is_safe_element] settles on:
    [(text.strip() or aria-label or name or "").lower()]. *)
Definition safety_text (el : WebElement) : py string :=
  t ← el_text el;
  a ← py_or (Some (PyStr.strip t)) (el_get_attribute el "aria-label");
  b ← py_or a (el_get_attribute el "name");
  c ← py_or b (Ret (Some ""));
  match c with
  | Some s => Ret (PyStr.lower s)
  | None => Raise
  end.

Definition is_dialog_role (r : option string) : bool :=
  match r with
  | Some s => bool_decide (s = "alertdialog") || bool_decide (s = "dialog")
  | None => false
  end.

(** [any(bad in text for bad in self.avoid_keywords)] *)
Definition has_avoid_keyword (text : string) : bool :=
  existsb (fun bad => PyStr.contains bad text) avoid_keywords.

Definition is_safe_element (el : WebElement) : bool :=
  try_except
    (text ← safety_text el;
     if has_avoid_keyword text
     then Ret false
     else
       role ← el_get_attribute el "role";
       if is_dialog_role role then Ret false else Ret true)
    false.

(** *** Candidate scan *)

(** An entry of [valid_elements]. *)
Record Item := {
  it_element : WebElement;
  it_signature : string;
  it_text : string;
  it_y : Z;
  it_x : Z;
  it_area : Z
}.

Definition selectors : list string :=
  ["//a[@href]";
   "//button[not(@disabled)]";
   "//input[@type='submit']";
   "//input[@type='button']";
   "//*[@role='button']";
   "//*[@onclick]"].

(** What the driver answers to [find_elements(By.XPATH, selector)] on the
    page as it is during one scan. *)
Definition Page := string → py (list WebElement).

Definition collect_candidates (page : Page) : list WebElement :=
  flat_map (fun selector => try_except (page selector) []) selectors.

(** Body of the loop over [candidates]: [Some item] when the element is
    appended to [valid_elements], [None] on [continue] and on any
    exception. *)
Definition valid_item (visited : gset string) (el : WebElement)
  : option Item :=
  try_except
    (displayed ← el_is_displayed el;
     usable ← (if displayed : bool then el_is_enabled el else Ret false);
     if negb usable then Ret None
     else if negb (is_safe_element el) then Ret None
     else
       match get_element_signature el with
       | None => Ret None
       | Some sig =>
         if negb (PyStr.truthy sig) || bool_decide (sig ∈ visited)
         then Ret None
         else
           loc ← el_location el;
           size ← el_size el;
           t ← el_text el;
           a ← py_or (Some (PyStr.take 50 (PyStr.strip t)))
                     (el_get_attribute el "aria-label");
           b ← py_or a (Ret (Some "unlabeled"));
           match b with
           | None => Raise
           | Some text =>
             Ret (Some {| it_element := el;
                          it_signature := sig;
                          it_text := text;
                          it_y := loc_y loc;
                          it_x := loc_x loc;
                          it_area := size_width size * size_height size |})
           end
       end : py (option Item))
    None.

Definition valid_elements (visited : gset string)
    (candidates : list WebElement) : list Item :=
  omap (valid_item visited) candidates.

(** *** Ranking *)

(** [lambda k: (k['y'] // 100, k['x'] // 100, -k['area'])] *)
Definition sort_key (k : Item) : Z * Z * Z :=
  (it_y k / 100, it_x k / 100, - it_area k).

(** Python's [<] on triples of integers. *)
Definition key_ltb (a b : Z * Z * Z) : bool :=
  let '(a1, a2, a3) := a in
  let '(b1, b2, b3) := b in
  (a1 <? b1) ||
  ((a1 =? b1) && ((a2 <? b2) || ((a2 =? b2) && (a3 <? b3)))).

(** [list.sort(key=...)] is a stable sort that compares keys with [<]
    only; it is embedded as a stable insertion sort. *)
Fixpoint insert_item (k : Item) (l : list Item) : list Item :=
  match l with
  | [] => [k]
  | h :: t =>
    if key_ltb (sort_key h) (sort_key k)
    then h :: insert_item k t
    else k :: l
  end.

Definition sort_items (l : list Item) : list Item :=
  foldr insert_item [] l.

(** *** Selection *)

(** The loop [for item in valid_elements] after the sort; [now] is the
    value of [time.time()]. *)
Fixpoint select_first (now : Z) (self : DeterministicExplorer)
    (items : list Item)
  : option (WebElement * string) * DeterministicExplorer :=
  match items with
  | [] => (None, self)
  | item :: rest =>
    let sig := it_signature item in
    if bool_decide (sig ∈ visited_signatures self)
    then select_first now self rest
    else
      (Some (it_element item, it_text item),
       {| visited_signatures := visited_signatures self ∪ {[ sig ]};
          interaction_log :=
            interaction_log self ++
            [{| log_timestamp := now;
                log_signature := sig;
                log_text := it_text item |}] |})
  end.

Definition get_next_interactive_element (now : Z)
    (self : DeterministicExplorer) (page : Page)
  : option (WebElement * string) * DeterministicExplorer :=
  let candidates := collect_candidates page in
  let valid := valid_elements (visited_signatures self) candidates in
  match valid with
  | [] => (None, self)
  | _ :: _ => select_first now self (sort_items valid)
  end.

(** ** AutoDocEngine *)

(** Class attributes of [Config] that the engine reads or writes.  They are
    process-wide: every function that touches them takes the current
    [Config] and returns the updated one. *)
Record Config := {
  MAX_SCREENSHOTS : Z;
  PAGE_LOAD_TIMEOUT : Z;
  SCRIPT_TIMEOUT : Z;
  PREFER_FULL_PAGE : bool
}.

Definition default_config : Config :=
  {| MAX_SCREENSHOTS := 5;
     PAGE_LOAD_TIMEOUT := 60;
     SCRIPT_TIMEOUT := 30;
     PREFER_FULL_PAGE := true |}.

Definition set_MAX_SCREENSHOTS (v : Z) (c : Config) : Config :=
  {| MAX_SCREENSHOTS := v;
     PAGE_LOAD_TIMEOUT := PAGE_LOAD_TIMEOUT c;
     SCRIPT_TIMEOUT := SCRIPT_TIMEOUT c;
     PREFER_FULL_PAGE := PREFER_FULL_PAGE c |}.

Record AutoDocEngine := {
  project_name : string;
  output_dir : string
}.

(** Outcome of [WebDriverWait(driver, 20).until(...)]: only
    [TimeoutException] is caught by the engine. *)
Inductive WaitOutcome := WaitOk | WaitTimeout | WaitRaises.

(** The browser side of the engine.  [W] is the state of the outside world
    (browser session, page, clock, files written); every entry point takes
    the current state and returns the next one. *)
Class Selenium (W : Type) := {
  (** [BrowserManager.get_available_browsers()] *)
  get_available_browsers : list string;
  (** [BrowserManager.create_driver(browser)] *)
  create_driver : string → py W;
  (** [driver.get(url)] followed by [time.sleep(3)] *)
  driver_get : W → string → py W;
  (** [WebDriverWait(driver, 20).until(presence of body)] *)
  wait_for_body : W → W * WaitOutcome;
  (** [driver.execute_script("window.scrollTo(0, 0);")] and the sleep; the
      engine ignores a failure *)
  scroll_to_top : W → W;
  (** [driver.find_elements] on the current page *)
  find_elements : W → Page;
  (** [time.time()], in whole seconds *)
  clock : W → Z;
  (** [scrollIntoView], [element.click()] and the sleeps around them;
      [false] when one of them raised *)
  click_element : W → WebElement → W * bool;
  (** [ScreenshotCapture.capture_web_screenshot(driver, path, "full")];
      every exception is caught inside, the result is the boolean *)
  capture_web_screenshot : W → string → W * bool;
  (** [driver.quit()]; [false] when it raised *)
  driver_quit : W → bool
}.

(** [self.output_dir / filename] *)
Definition path_join (dir filename : string) : string :=
  dir +:+ "/" +:+ filename.

Section Engine.
Context {W : Type} `{!Selenium W}.

(** The loop [for browser in browsers: try: ... break  except: continue]. *)
Fixpoint first_driver (browsers : list string) : option W :=
  match browsers with
  | [] => None
  | browser :: rest =>
    match create_driver browser with
    | Ret w => Some w
    | Raise => first_driver rest
    end
  end.

(** State of the exploration: world, explorer, [screenshots] and
    [screenshot_count]. *)
Record Session := {
  s_world : W;
  s_explorer : DeterministicExplorer;
  s_screenshots : list string;
  s_count : Z
}.

Definition with_explorer (explorer : DeterministicExplorer) (w : W)
    (s : Session) : Session :=
  {| s_world := w; s_explorer := explorer;
     s_screenshots := s_screenshots s; s_count := s_count s |}.

(** One iteration of [for i in range(...)]; the boolean is [false] on
    [break]. *)
Definition explore_step (self : AutoDocEngine) (s : Session)
  : bool * Session :=
  let w := s_world s in
  let '(found, explorer) :=
    get_next_interactive_element (clock w) (s_explorer s)
      (find_elements w) in
  match found with
  | None => (false, with_explorer explorer w s)
  | Some (element, text) =>
    let '(w1, clicked) := click_element w element in
    if clicked then
      let filename :=
        "screen_" +:+ PyStr.fmt_03d (s_count s) +:+ "_action_" +:+
        pretty (clock w1) +:+ "_full.png" in
      let path := path_join (output_dir self) filename in
      let '(w2, captured) := capture_web_screenshot w1 path in
      if captured then
        (true, {| s_world := w2; s_explorer := explorer;
                  s_screenshots := s_screenshots s ++ [path];
                  s_count := s_count s + 1 |})
      else (true, with_explorer explorer w2 s)
    else (true, with_explorer explorer w1 s)
  end.

(** [for i in range(n)] *)
Fixpoint explore_loop (self : AutoDocEngine) (n : nat) (s : Session)
  : Session :=
  match n with
  | O => s
  | S n' =>
    match explore_step self s with
    | (false, s') => s'
    | (true, s') => explore_loop self n' s'
    end
  end.

(** Body of the outer [try] once the page is loaded: phase 1 (baseline
    capture) and phase 2 (exploration). *)
Definition capture_phases (self : AutoDocEngine) (cfg : Config) (w : W)
  : Session :=
  let path := path_join (output_dir self)
                ("screen_" +:+ PyStr.fmt_03d 0 +:+ "_initial_full.png") in
  let '(w1, captured) := capture_web_screenshot w path in
  let s1 :=
    if captured
    then {| s_world := w1; s_explorer := new_explorer;
            s_screenshots := [path]; s_count := 1 |}
    else {| s_world := w1; s_explorer := new_explorer;
            s_screenshots := []; s_count := 0 |} in
  if s_count s1 <? MAX_SCREENSHOTS cfg then
    let s2 := with_explorer (s_explorer s1)
                (scroll_to_top (s_world s1)) s1 in
    explore_loop self (Z.to_nat (MAX_SCREENSHOTS cfg - s_count s2)) s2
  else s1.

(** Truth value of the argument [max_screenshots] ([None] and [0] are
    false). *)
Definition truthy_int (v : option Z) : bool :=
  match v with
  | None => false
  | Some n => negb (n =? 0)
  end.

(** [if max_screenshots: Config.MAX_SCREENSHOTS = max_screenshots] *)
Definition apply_max_screenshots (max_screenshots : option Z)
    (cfg : Config) : Config :=
  match max_screenshots with
  | Some n => if truthy_int max_screenshots
              then set_MAX_SCREENSHOTS n cfg else cfg
  | None => cfg
  end.

(** The session the run goes through, when it gets as far as the
    captures; [Raise] when no driver could be created or the page load
    raised. *)
Definition run_session (self : AutoDocEngine) (url : string)
    (cfg : Config) : py Session :=
  match first_driver get_available_browsers with
  | None => Raise
  | Some w0 =>
    match driver_get w0 url with
    | Raise => Raise
    | Ret w1 =>
      match wait_for_body w1 with
      | (_, WaitRaises) => Raise
      | (w2, _) => Ret (capture_phases self cfg w2)
      end
    end
  end.

(** [AutoDocEngine.run_web_exploration(url, max_screenshots)]: the value
    returned (or [Raise]) and [Config] as the call leaves it.  The
    [finally] clause runs [driver.quit()] whenever a driver exists; an
    exception of [quit] replaces the result. *)
Definition run_web_exploration (self : AutoDocEngine) (url : string)
    (max_screenshots : option Z) (cfg : Config)
  : py (list string) * Config :=
  let cfg' := apply_max_screenshots max_screenshots cfg in
  (s ← run_session self url cfg';
   if driver_quit (s_world s) then Ret (s_screenshots s) else Raise,
   cfg').

End Engine.


(** ** Image comparison ([process_run.py]) *)

(** A two-dimensional array, row major: a list of rows. *)
Abbreviation grid A := (list (list A)) (only parsing).

Definition grid_map {A B} (f : A → B) (g : grid A) : grid B :=
  map (map f) g.

(** An element-wise binary operation on two arrays of the same shape. *)
Definition grid_zip {A B C} (f : A → B → C) (a : grid A) (b : grid B)
  : grid C :=
  zip_with (zip_with f) a b.

(** [arr.shape[:2]]: height and width. *)
Definition shape {A} (g : grid A) : Z * Z :=
  (Z.of_nat (length g),
   match g with
   | [] => 0
   | row :: _ => Z.of_nat (length row)
   end).

(** A decoded colour image: height x width pixels of three channels. *)
Abbreviation Image := (list (list (Z * Z * Z))) (only parsing).

(** A point of a contour, [(x, y)]: column and row. *)
Abbreviation Point := (Z * Z)%type (only parsing).

(** NumPy scalars.  [F] is [float32], the element type of the arrays the
    comparison computes with; [D] is Python's [float]. *)
Class Numeric (F D : Type) := {
  f_add : F → F → F;
  f_sub : F → F → F;
  f_mul : F → F → F;
  f_div : F → F → F;
  (** [x == 0] *)
  f_is_zero : F → bool;
  (** [np.isfinite(x)] *)
  f_isfinite : F → bool;
  (** [np.clip(x, 0.0, 1.0)] *)
  f_clip01 : F → F;
  (** [astype(np.float32)] of a [uint8] *)
  f_of_uint8 : Z → F;
  (** [astype('uint8')] *)
  f_to_uint8 : F → Z;
  (** the literals [0], [1.0], [2], [255.0] and the constants
      [(0.01 * 255) ** 2], [(0.03 * 255) ** 2] as [float32] *)
  f_zero : F;
  f_one : F;
  f_two : F;
  f_255 : F;
  f_C1 : F;
  f_C2 : F;
  (** [np.mean] of a [float32] array *)
  np_mean : grid F → F;
  (** [float(x)] *)
  to_float : F → D;
  (** [x * 100.0] on Python floats *)
  times_100 : D → D
}.

(** The OpenCV entry points whose result is not determined by a one-line
    formula. *)
Class OpenCV (F : Type) := {
  (** [cv2.imdecode(np.frombuffer(b, np.uint8), cv2.IMREAD_COLOR)]: a BGR
      image, [None] when the buffer is not a readable image; the call
      itself raises on an empty buffer *)
  imdecode : list byte → py (option Image);
  (** [cv2.resize(img, (w, h), interpolation=cv2.INTER_AREA)] *)
  resize : Image → Z → Z → Image;
  (** [cv2.cvtColor(img, cv2.COLOR_RGB2GRAY)] *)
  cvtColor_RGB2GRAY : Image → grid Z;
  (** [cv2.GaussianBlur(a, (11, 11), 1.5)] *)
  GaussianBlur : grid F → grid F;
  (** [cv2.findContours(bin, cv2.RETR_EXTERNAL, cv2.CHAIN_APPROX_SIMPLE)],
      the list of contours *)
  findContours : grid Z → list (list Point);
  (** [cv2.imencode('.png', img)]: the buffer, [None] when [is_success] is
      false *)
  imencode_png : Image → option (list byte)
}.

(** [cv2.cvtColor(bgr, cv2.COLOR_BGR2RGB)]: the channels in reverse order. *)
Definition cvtColor_BGR2RGB (img : Image) : Image :=
  grid_map (λ '(b, g, r), (r, g, b)) img.

(** [cv2.cvtColor(gray, cv2.COLOR_GRAY2BGR)]: the value in every channel. *)
Definition cvtColor_GRAY2BGR (g : grid Z) : Image :=
  grid_map (λ v, (v, v, v)) g.

(** [cv2.threshold(src, thresh, maxval, cv2.THRESH_BINARY)]: [maxval] where
    [src > thresh], [0] elsewhere. *)
Definition threshold_binary (src : grid Z) (thresh maxval : Z) : grid Z :=
  grid_map (λ v, if thresh <? v then maxval else 0) src.

Definition list_min (d : Z) (l : list Z) : Z := foldr Z.min d l.
Definition list_max (d : Z) (l : list Z) : Z := foldr Z.max d l.

(** [cv2.boundingRect(cnt)]: the smallest upright rectangle
    [(x, y, w, h)] that contains every point; all zero for no point. *)
Definition boundingRect (cnt : list Point) : Z * Z * Z * Z :=
  match cnt with
  | [] => (0, 0, 0, 0)
  | (x0, y0) :: rest =>
    let xs := fst <$> rest in
    let ys := snd <$> rest in
    let x := list_min x0 xs in
    let y := list_min y0 ys in
    (x, y, list_max x0 xs - x + 1, list_max y0 ys - y + 1)
  end.

(** The dictionary appended to [regions]. *)
Definition region_dict (x y wbox hbox area : Z) : gmap string Z :=
  <["x" := x]> (<["y" := y]> (<["width" := wbox]>
    (<["height" := hbox]> (<["area" := area]> ∅)))).

(** The loop over [contours]. *)
Fixpoint regions_of (contours : list (list Point)) : list (gmap string Z) :=
  match contours with
  | [] => []
  | cnt :: rest =>
    let '(x, y, wbox, hbox) := boundingRect cnt in
    let area := wbox * hbox in
    if area <? 50 then regions_of rest
    else region_dict x y wbox hbox area :: regions_of rest
  end.

Section Compare.
Context {F D : Type} `{!Numeric F D} `{!OpenCV F}.

Definition _bytes_to_rgb_array (img_bytes : list byte) : py Image :=
  bgr ← imdecode img_bytes;
  match bgr with
  | None => Raise
  | Some bgr => Ret (cvtColor_BGR2RGB bgr)
  end.

(** Resize both images to the smallest common size and convert them to
    [float32] grey levels. *)
Definition gray_pair (img1_arr img2_arr : Image) : grid F * grid F :=
  let '(h1, w1) := shape img1_arr in
  let '(h2, w2) := shape img2_arr in
  let w := Z.min w1 w2 in
  let h := Z.min h1 h2 in
  let img1_resized := resize img1_arr w h in
  let img2_resized := resize img2_arr w h in
  (grid_map f_of_uint8 (cvtColor_RGB2GRAY img1_resized),
   grid_map f_of_uint8 (cvtColor_RGB2GRAY img2_resized)).

Definition mul_arr (a b : grid F) : grid F := grid_zip f_mul a b.
Definition add_arr (a b : grid F) : grid F := grid_zip f_add a b.
Definition sub_arr (a b : grid F) : grid F := grid_zip f_sub a b.
(** [2 * a + c] and [a + c] with a scalar [c] *)
Definition twice_plus (a : grid F) (c : F) : grid F :=
  grid_map (λ x, f_add (f_mul f_two x) c) a.
Definition plus_scalar (a : grid F) (c : F) : grid F :=
  grid_map (λ x, f_add x c) a.

(** [num] of the SSIM formula. *)
Definition ssim_num (gray1 gray2 : grid F) : grid F :=
  let mu1 := GaussianBlur gray1 in
  let mu2 := GaussianBlur gray2 in
  let mu1_mu2 := mul_arr mu1 mu2 in
  let sigma12 := sub_arr (GaussianBlur (mul_arr gray1 gray2)) mu1_mu2 in
  mul_arr (twice_plus mu1_mu2 f_C1) (twice_plus sigma12 f_C2).

(** [den] of the SSIM formula. *)
Definition ssim_den (gray1 gray2 : grid F) : grid F :=
  let mu1 := GaussianBlur gray1 in
  let mu2 := GaussianBlur gray2 in
  let mu1_sq := mul_arr mu1 mu1 in
  let mu2_sq := mul_arr mu2 mu2 in
  let sigma1_sq := sub_arr (GaussianBlur (mul_arr gray1 gray1)) mu1_sq in
  let sigma2_sq := sub_arr (GaussianBlur (mul_arr gray2 gray2)) mu2_sq in
  mul_arr (plus_scalar (add_arr mu1_sq mu2_sq) f_C1)
          (plus_scalar (add_arr sigma1_sq sigma2_sq) f_C2).

(** [np.divide(num, den, out=np.zeros_like(num), where=den != 0)] *)
Definition divide_where_nonzero (num den : grid F) : grid F :=
  grid_zip (λ n d, if f_is_zero d then f_zero else f_div n d) num den.

Definition ssim_map (gray1 gray2 : grid F) : grid F :=
  divide_where_nonzero (ssim_num gray1 gray2) (ssim_den gray1 gray2).

(** [(np.clip(1.0 - ssim_map, 0.0, 1.0) * 255.0).astype('uint8')] *)
Definition diff_norm (ssim : grid F) : grid Z :=
  grid_map (λ s, f_to_uint8 (f_mul (f_clip01 (f_sub f_one s)) f_255)) ssim.

(** The rest of [compute_ssim_and_diff] once both images are decoded. *)
Definition compare_arrays (img1_arr img2_arr : Image)
  : D * list (gmap string Z) * option (list byte) :=
  let '(gray1, gray2) := gray_pair img1_arr img2_arr in
  let ssim := ssim_map gray1 gray2 in
  let score := to_float (np_mean ssim) in
  let dn := diff_norm ssim in
  let thresh := threshold_binary dn 30 255 in
  let contours := findContours thresh in
  let regions := regions_of contours in
  let diff_bytes := imencode_png (cvtColor_GRAY2BGR dn) in
  let similarity_percent := times_100 score in
  (similarity_percent, regions, diff_bytes).

Definition compute_ssim_and_diff (img1_bytes img2_bytes : list byte)
  : py (D * list (gmap string Z) * option (list byte)) :=
  img1_arr ← _bytes_to_rgb_array img1_bytes;
  img2_arr ← _bytes_to_rgb_array img2_bytes;
  Ret (compare_arrays img1_arr img2_arr).

End Compare.

(** *** Persisting a region ([process_run_id]) *)

(** The row [cd] inserted into [change_details] for one region; the nested
    [ai_analysis] dictionary is flattened into three fields. *)
Record ChangeDetail := {
  cd_comparison_id : option string;
  cd_change_type : string;
  cd_description : string;
  cd_position_x : option Z;
  cd_position_y : option Z;
  cd_width : option Z;
  cd_height : option Z;
  cd_severity : string;
  cd_ai_confidence : Q;
  cd_ai_recommendation : string;
  cd_ai_gemini_description : string
}.

(** [str(v)] of an optional integer, as an f-string prints it. *)
Definition str_opt (v : option Z) : string :=
  match v with
  | None => "None"
  | Some n => pretty n
  end.

Definition change_detail (comparison_id : option string)
    (reg : gmap string Z) (gemini_analysis_text : string) : ChangeDetail :=
  {| cd_comparison_id := comparison_id;
     cd_change_type := "visual";
     cd_description :=
       "Detected change in region area " +:+ str_opt (reg !! "area");
     cd_position_x := reg !! "x";
     cd_position_y := reg !! "y";
     cd_width := reg !! "width";
     cd_height := reg !! "height";
     cd_severity :=
       if 1000 <? default 0 (reg !! "area") then "major" else "minor";
     cd_ai_confidence := 8 # 10;
     cd_ai_recommendation := "Review and approve if intended.";
     cd_ai_gemini_description := gemini_analysis_text |}.

(** ** Processing a run ([process_run_id]) *)

(** A row as the database returns it: a dictionary whose values are
    strings or [None]. *)
Abbreviation Row := (gmap string (option string)) (only parsing).

(** [d.get(key)]: [None] for a missing key and for a stored [None]. *)
Definition row_get (key : string) (d : Row) : option string :=
  d !! key ≫= id.

(** An entry of [doc_images]. *)
Record DocImage := {
  doc_path : option string;
  doc_url : option string
}.

(** Body of the loop over [docs_res.data]. *)
Definition doc_of_row (d : Row) : DocImage :=
  if truthy_opt (row_get "storage_url" d)
  then {| doc_path := row_get "file_path" d;
          doc_url := row_get "storage_url" d |}
  else {| doc_path := row_get "file_path" d; doc_url := None |}.

(** [item.get('name') or item.get('path') or item['name']]; the
    subscript raises [KeyError] when the key is missing. *)
Definition item_path (item : Row) : py (option string) :=
  if truthy_opt (row_get "name" item) then Ret (row_get "name" item)
  else if truthy_opt (row_get "path" item) then Ret (row_get "path" item)
  else match item !! "name" with
       | Some v => Ret v
       | None => Raise
       end.

(** The loop over the bucket listing inside [try]: an exception ends the
    loop and keeps what was appended before. *)
Fixpoint bucket_entries (items : list Row) (doc_images : list DocImage)
  : list DocImage :=
  match items with
  | [] => doc_images
  | item :: rest =>
    match item_path item with
    | Raise => doc_images
    | Ret p =>
      bucket_entries rest
        (doc_images ++ [{| doc_path := p; doc_url := None |}])
    end
  end.

Definition sample_placeholder : DocImage :=
  {| doc_path := Some "screenshots/login-page.png"; doc_url := None |}.

(** The images a run compares: the rows of the [documents] table
    ([docs_data] is [docs_res.data]), else the listing of the bucket
    ([bucket_list] is the outcome of [storage.from_(...).list(...)]), else
    the sample placeholder. *)
Definition select_doc_images (docs_data : option (list Row))
    (bucket_list : py (option (list Row))) : list DocImage :=
  let from_docs :=
    match docs_data with
    | Some rows => doc_of_row <$> rows
    | None => []
    end in
  let with_bucket :=
    match from_docs with
    | [] =>
      match bucket_list with
      | Ret (Some items) => bucket_entries items []
      | _ => []
      end
    | _ :: _ => from_docs
    end in
  match with_bucket with
  | [] => [sample_placeholder]
  | _ :: _ => with_bucket
  end.

(** Truth value of an optional byte string ([None] and [b""] are false). *)
Definition truthy_bytes (b : option (list byte)) : bool :=
  match b with
  | Some (_ :: _) => true
  | _ => false
  end.

(** [similarity], [regions] and [status] after the comparison of one
    document image with the live screenshot. *)
Record Comparison := {
  cmp_similarity : option Q;
  cmp_regions : list (gmap string Z);
  cmp_status : string
}.

Section ProcessRun.
Context {F : Type} `{!Numeric F Q} `{!OpenCV F}.

(** Lines 336 to 355 of [process_run_id].  Python floats are rationals
    here; [tolerance] is [None] when the project has no
    [comparison_tolerance], and [float(None)] raises inside the [try]. *)
Definition compare_document (doc_bytes screenshot_bytes : option (list byte))
    (tolerance : option Q) : Comparison :=
  if truthy_bytes doc_bytes && truthy_bytes screenshot_bytes then
    match compute_ssim_and_diff (default [] doc_bytes)
                                (default [] screenshot_bytes) with
    | Raise =>
      {| cmp_similarity := None; cmp_regions := []; cmp_status := "error" |}
    | Ret (similarity, regions, _) =>
      match tolerance with
      | None =>
        {| cmp_similarity := None; cmp_regions := regions;
           cmp_status := "error" |}
      | Some tol =>
        {| cmp_similarity := Some similarity; cmp_regions := regions;
           cmp_status :=
             if Qle_bool tol similarity then "matched" else "changed" |}
      end
    end
  else
    {| cmp_similarity := None; cmp_regions := []; cmp_status := "error" |}.

End ProcessRun.

(** The value of [change_severity] in [comp_insert]; comparing a number
    with [None] raises. *)
Definition change_severity (similarity tolerance : option Q)
  : py (option string) :=
  match similarity with
  | None => Ret None
  | Some s =>
    if negb (Qle_bool 90 s) then Ret (Some "major")
    else match tolerance with
         | None => Raise
         | Some tol =>
           if negb (Qle_bool tol s) then Ret (Some "minor") else Ret None
         end
  end.

(** [changes_detected] after one more comparison. *)
Definition count_change (changes_detected : Z) (c : Comparison) : Z :=
  if bool_decide (cmp_status c = "changed")
  then changes_detected + 1 else changes_detected.

(** The rows inserted into [change_details] for one comparison;
    [comp_row_id] is [None] when the insert returned no row, [Some id]
    with [id = comp_row.get('id')] otherwise; [analysis] is the text the
    model produced, or the fixed text, for a region. *)
Definition change_rows (c : Comparison)
    (comp_row_id : option (option string))
    (analysis : gmap string Z → string) : list ChangeDetail :=
  match comp_row_id with
  | Some comparison_id =>
    if bool_decide (cmp_status c = "changed")
    then (λ reg, change_detail comparison_id reg (analysis reg))
         <$> cmp_regions c
    else []
  | None => []
  end.

(** ** ScreenshotCapture *)

(** A computation on the driver: it changes the state [B] of the browser
    and returns a value or raises. *)
Definition Driven (B A : Type) : Type := B → B * py A.

Definition driven_ret {B A} (a : A) : Driven B A := λ b, (b, Ret a).

Definition driven_bind {B A A'} (c : Driven B A) (k : A → Driven B A')
  : Driven B A' :=
  λ b, match c b with
       | (b', Ret a) => k a b'
       | (b', Raise) => (b', Raise)
       end.

(** [try: c  except Exception: handler] *)
Definition driven_try {B A} (c handler : Driven B A) : Driven B A :=
  λ b, match c b with
       | (b', Raise) => handler b'
       | done => done
       end.

Notation "x ⇐ c ;; k" := (driven_bind c (λ x, k))
  (at level 100, c at next level, right associativity).

(** The driver calls of the capture code. *)
Class WebDriver (B : Type) := {
  (** [driver.execute_script(js)] for a script that returns a number *)
  execute_script : string → Driven B Z;
  (** [driver.save_screenshot(path)]; the boolean it returns is ignored
      by the callers *)
  save_screenshot : string → Driven B bool;
  (** [driver.execute_cdp_cmd(name, params)]: the entry [data] of the
      result, if it has one; [params] are the numbers passed *)
  execute_cdp_cmd : string → list Z → Driven B (option string);
  (** [open(path, "wb")] and [f.write(base64.b64decode(data))] *)
  write_decoded : string → string → Driven B unit;
  (** [total_height <= viewport_height * 1.2], as Python evaluates it *)
  is_short_page : Z → Z → bool
}.

Module ScreenshotCapture.
Section Capture.
Context {B : Type} `{!WebDriver B}.

Definition total_height_script : string :=
  "return Math.max(document.body.scrollHeight, document.body.offsetHeight, document.documentElement.clientHeight, document.documentElement.scrollHeight, document.documentElement.offsetHeight);".

(** [res['data']] *)
Definition result_data (res : option string) : Driven B string :=
  λ b, match res with
       | Some data => (b, Ret data)
       | None => (b, Raise)
       end.

Definition _full_page_capture (path : string) : Driven B bool :=
  driven_try
    (total_height ⇐ execute_script total_height_script ;;
     viewport_height ⇐ execute_script "return window.innerHeight" ;;
     viewport_width ⇐ execute_script "return window.innerWidth" ;;
     if is_short_page total_height viewport_height then
       _ ⇐ save_screenshot path ;; driven_ret true
     else
       driven_try
         (_ ⇐ execute_cdp_cmd "Emulation.setDeviceMetricsOverride"
                [viewport_width; total_height; 1; 0] ;;
          res ⇐ execute_cdp_cmd "Page.captureScreenshot" [] ;;
          _ ⇐ execute_cdp_cmd "Emulation.clearDeviceMetricsOverride" [] ;;
          data ⇐ result_data res ;;
          _ ⇐ write_decoded path data ;;
          driven_ret true)
         (_ ⇐ save_screenshot path ;; driven_ret true))
    (driven_ret false).

Definition capture_web_screenshot (cfg : Config) (path method : string)
  : Driven B bool :=
  driven_try
    (if bool_decide (method = "full") then _full_page_capture path
     else if bool_decide (method = "smart") then
       if PREFER_FULL_PAGE cfg then
         success ⇐ _full_page_capture path ;;
         if success then driven_ret true
         else _ ⇐ save_screenshot path ;; driven_ret true
       else _ ⇐ save_screenshot path ;; driven_ret true
     else _ ⇐ save_screenshot path ;; driven_ret true)
    (driven_try (_ ⇐ save_screenshot path ;; driven_ret true)
                (driven_ret false)).

End Capture.
End ScreenshotCapture.
(** * Specification vocabulary *)

(** The element the safety filter lets through although its signature text
    is a denylist word: no visible text, no [aria-label], no [name], and
    [id="logout"]. *)
Definition logout_by_id : WebElement :=
  {| el_text := Ret "";
     el_get_attribute := fun a =>
       if bool_decide (a = "id") then Ret (Some "logout") else Ret None;
     el_location := Ret {| loc_x := 10; loc_y := 50 |};
     el_tag_name := Ret "button";
     el_size := Ret {| size_width := 80; size_height := 20 |};
     el_is_displayed := Ret true;
     el_is_enabled := Ret true |}.

Definition key_le (a b : Item) : Prop :=
  key_ltb (sort_key b) (sort_key a) = false.

Definition selection_of (item : Item) : WebElement * string :=
  (it_element item, it_text item).

(** The explorer after [item] has been selected at time [now]. *)
Definition mark_visited (now : Z) (self : DeterministicExplorer)
    (item : Item) : DeterministicExplorer :=
  {| visited_signatures :=
       visited_signatures self ∪ {[ it_signature item ]};
     interaction_log :=
       interaction_log self ++
       [{| log_timestamp := now;
           log_signature := it_signature item;
           log_text := it_text item |}] |}.


(** The ranked survivors of a scan. *)
Definition ranked (visited : gset string) (page : Page) : list Item :=
  sort_items (valid_elements visited (collect_candidates page)).

Definition log_signatures (self : DeterministicExplorer) : list string :=
  log_signature <$> interaction_log self.

(** Invariant of an explorer: the logged signatures are pairwise distinct
    and all of them are in the visited set. *)
Definition explorer_inv (self : DeterministicExplorer) : Prop :=
  NoDup (log_signatures self) ∧
  ∀ sig, sig ∈ log_signatures self → sig ∈ visited_signatures self.

(** A session of one explorer: the scans it performs, each with the clock
    reading and the page at that moment. *)
Definition scan_session (scans : list (Z * Page)) : DeterministicExplorer :=
  foldl (λ self scan, (get_next_interactive_element scan.1 self scan.2).2)
        new_explorer scans.

(** *** A page with three buttons, one of them "Logout" *)
Module ThreeButtons.

Definition button (label : string) (x y : Z) : WebElement :=
  {| el_text := Ret label;
     el_get_attribute := fun _ => Ret None;
     el_location := Ret {| loc_x := x; loc_y := y |};
     el_tag_name := Ret "button";
     el_size := Ret {| size_width := 80; size_height := 24 |};
     el_is_displayed := Ret true;
     el_is_enabled := Ret true |}.

Definition page : Page := fun selector =>
  if bool_decide (selector = "//button[not(@disabled)]")
  then Ret [button "Settings" 10 300; button "Reports" 200 50;
            button "Logout" 10 50]
  else Ret [].

End ThreeButtons.

(** *** A page on which candidates never run out

    The world is a counter.  Every scan finds one enabled link whose
    position, hence signature, depends on the counter; a click always
    succeeds and advances the counter; every capture succeeds. *)
Module EndlessPage.

Definition link (w : Z) : WebElement :=
  {| el_text := Ret "Next";
     el_get_attribute := fun _ => Ret None;
     el_location := Ret {| loc_x := w; loc_y := 0 |};
     el_tag_name := Ret "a";
     el_size := Ret {| size_width := 60; size_height := 20 |};
     el_is_displayed := Ret true;
     el_is_enabled := Ret true |}.

#[global] Instance selenium : Selenium Z := {|
  get_available_browsers := ["chrome"];
  create_driver := fun _ => Ret 0;
  driver_get := fun w _ => Ret w;
  wait_for_body := fun w => (w, WaitOk);
  scroll_to_top := fun w => w;
  find_elements := fun w selector =>
    if bool_decide (selector = "//a[@href]") then Ret [link w] else Ret [];
  clock := fun w => w;
  click_element := fun w _ => (w + 1, true);
  capture_web_screenshot := fun w _ => (w, true);
  driver_quit := fun _ => true
|}.

Definition engine : AutoDocEngine :=
  {| project_name := "demo"; output_dir := "output" |}.

Definition url : string := "http://localhost:3000".

End EndlessPage.

(** *** Images, components and bounding boxes *)

(** The value of the array at column [p.1], row [p.2]. *)
Definition pixel {A} (g : grid A) (p : Point) : option A :=
  if (0 <=? p.1) && (0 <=? p.2)
  then row ← g !! Z.to_nat p.2; row !! Z.to_nat p.1
  else None.

(** The pixel exists and its value exceeds [t]. *)
Definition exceeds (g : grid Z) (t : Z) (p : Point) : Prop :=
  ∃ v, pixel g p = Some v ∧ t < v.

(** The pixel exists and is not zero: the foreground of a binary image. *)
Definition nonzero (g : grid Z) (p : Point) : Prop :=
  ∃ v, pixel g p = Some v ∧ v ≠ 0.

(** Two distinct pixels that touch by a side or a corner. *)
Definition adjacent8 (p q : Point) : Prop :=
  p ≠ q ∧ Z.abs (p.1 - q.1) ≤ 1 ∧ Z.abs (p.2 - q.2) ≤ 1.

(** A move to a neighbouring foreground pixel. *)
Definition fg_step (fg : Point → Prop) (p q : Point) : Prop :=
  adjacent8 p q ∧ fg q.

(** [p] belongs to the connected component of the foreground pixel
    [seed]: the maximal set reached from [seed] through foreground
    neighbours. *)
Definition component (fg : Point → Prop) (seed p : Point) : Prop :=
  fg seed ∧ rtc (fg_step fg) seed p.


(** What [findContours] promises of one contour: its points are pixels of
    one connected component, and they reach as far left, right, up and
    down as the component does. *)
Definition outlines (fg : Point → Prop) (cnt : list Point) : Prop :=
  cnt ≠ [] ∧
  ∃ seed,
    (∀ p, p ∈ cnt → component fg seed p) ∧
    ∀ p, component fg seed p →
      (∃ q, q ∈ cnt ∧ q.1 ≤ p.1) ∧ (∃ q, q ∈ cnt ∧ p.1 ≤ q.1) ∧
      (∃ q, q ∈ cnt ∧ q.2 ≤ p.2) ∧ (∃ q, q ∈ cnt ∧ p.2 ≤ q.2).


Section CompareVocabulary.
Context {F D : Type} `{!Numeric F D} `{!OpenCV F}.

(** The buffer decodes to an image. *)
Definition decodable (b : list byte) : Prop :=
  ∃ bgr, imdecode b = Ret (Some bgr).

(** The similarity map of two decoded images. *)
Definition similarity_map (img1_arr img2_arr : Image) : grid F :=
  ssim_map (gray_pair img1_arr img2_arr).1 (gray_pair img1_arr img2_arr).2.

(** The denominator of the SSIM formula for two decoded images. *)
Definition similarity_den (img1_arr img2_arr : Image) : grid F :=
  ssim_den (gray_pair img1_arr img2_arr).1 (gray_pair img1_arr img2_arr).2.

(** The 8-bit dissimilarity map of two decoded images. *)
Definition dissimilarity (img1_arr img2_arr : Image) : grid Z :=
  diff_norm (similarity_map img1_arr img2_arr).

(** Arithmetic the identity of the comparison rests on: doubling is
    adding a number to itself, a finite non-zero number divided by itself
    is one, and the mean of an array of ones is one. *)
Definition doubling_is_adding : Prop :=
  ∀ x : F, f_add x x = f_mul f_two x.

Definition self_division_is_one : Prop :=
  ∀ d : F, f_isfinite d = true → f_is_zero d = false → f_div d d = f_one.


(** The image is not degenerate when compared with itself: there is at
    least one pixel and the denominator of the SSIM formula is a finite
    non-zero number at every pixel. *)
Definition nondegenerate (img_arr : Image) : Prop :=
  concat (similarity_den img_arr img_arr) ≠ [] ∧
  Forall (λ d, f_isfinite d = true ∧ f_is_zero d = false)
         (concat (similarity_den img_arr img_arr)).

End CompareVocabulary.

(** *** An exact-arithmetic instance of the numerical libraries

    [float32] and Python floats are the rationals, kept in lowest terms, so
    no operation rounds.  The OpenCV entry points follow the OpenCV
    documentation: binary PGM ([P5], maxval 255) is the one container
    [imdecode] reads, [INTER_AREA] averages the source area of every
    destination pixel, [GaussianBlur] is the separable 11-tap kernel of
    standard deviation 1.5 (weights to nine decimals) with reflect-101
    borders, [findContours] traces the 8-connected components of the
    non-zero pixels.  PNG encoding is not provided: [imencode_png] reports
    failure. *)
Module ExactLib.

Local Open Scope Q_scope.

Definition clip01 (x : Q) : Q :=
  if Qle_bool x 0 then 0 else if Qle_bool 1 x then 1 else x.

Definition sum_Q (l : list Q) : Q := foldr Qplus 0 l.

Definition mean (g : grid Q) : Q :=
  let l := concat g in
  match l with
  | [] => 0
  | _ :: _ => Qred (sum_Q l / inject_Z (Z.of_nat (length l)))
  end.

#[global] Instance numeric : Numeric Q Q := {|
  f_add := λ x y, Qred (x + y);
  f_sub := λ x y, Qred (x - y);
  f_mul := λ x y, Qred (x * y);
  f_div := λ x y, Qred (x / y);
  f_is_zero := λ x, Qeq_bool x 0;
  f_isfinite := λ _, true;
  f_clip01 := clip01;
  f_of_uint8 := inject_Z;
  f_to_uint8 := λ x, ((Qnum x ÷ Zpos (Qden x)) mod 256)%Z;
  f_zero := 0;
  f_one := 1;
  f_two := 2;
  f_255 := 255;
  f_C1 := 2601 # 400;
  f_C2 := 23409 # 400;
  np_mean := mean;
  to_float := λ x, x;
  times_100 := λ x, Qred (x * 100)
|}.

(** **** Decoding binary PGM *)

Definition is_ws (c : N) : bool :=
  ((c =? 9) || (c =? 10) || (c =? 13) || (c =? 32))%N.

Definition is_digit (c : N) : bool := ((48 <=? c) && (c <=? 57))%N.

Fixpoint skip_ws (l : list N) : list N :=
  match l with
  | c :: l' => if is_ws c then skip_ws l' else l
  | [] => []
  end.

Fixpoint read_digits (acc : Z) (l : list N) : Z * list N :=
  match l with
  | c :: l' =>
    if is_digit c
    then read_digits (10 * acc + Z.of_N (c - 48))%Z l'
    else (acc, l)
  | [] => (acc, [])
  end.

(** A number after at least one white-space character. *)
Definition read_field (l : list N) : option (Z * list N) :=
  match l with
  | c :: _ =>
    if is_ws c then
      match skip_ws l with
      | (d :: _) as l' =>
        if is_digit d then Some (read_digits 0 l') else None
      | [] => None
      end
    else None
  | [] => None
  end.

Fixpoint rows_of {A} (h : nat) (w : nat) (l : list A) : list (list A) :=
  match h with
  | O => []
  | S h' => take w l :: rows_of h' w (drop w l)
  end.

Definition parse_pgm (bs : list byte) : option Image :=
  match Byte.to_N <$> bs with
  | 80%N :: 53%N :: l0 =>
    '(w, l1) ← read_field l0;
    '(h, l2) ← read_field l1;
    '(maxval, l3) ← read_field l2;
    match l3 with
    | c :: raster =>
      if is_ws c && (maxval =? 255)%Z && (0 <? w)%Z && (0 <? h)%Z
         && (w * h <=? Z.of_nat (length raster))%Z
      then Some (rows_of (Z.to_nat h) (Z.to_nat w)
                   ((λ v, (Z.of_N v, Z.of_N v, Z.of_N v)) <$> raster))
      else None
    | [] => None
    end
  | _ => None
  end.

Definition decode (bs : list byte) : py (option Image) :=
  match bs with
  | [] => Raise
  | _ :: _ => Ret (parse_pgm bs)
  end.

(** **** Area resampling *)

Definition Qmin (a b : Q) : Q := if Qle_bool a b then a else b.
Definition Qmax (a b : Q) : Q := if Qle_bool a b then b else a.

(** Length of the part of the source cell [[k, k+1)] inside [[a, b)]. *)
Definition overlap (k : nat) (a b : Q) : Q :=
  let k := inject_Z (Z.of_nat k) in
  Qmax 0 (Qmin (k + 1) b - Qmax k a).

Definition area_1d (n_dst : nat) (src : list Q) : list Q :=
  let n_src := inject_Z (Z.of_nat (length src)) in
  let scale := n_src / inject_Z (Z.of_nat n_dst) in
  (λ j : nat,
     let a := inject_Z (Z.of_nat j) * scale in
     let b := inject_Z (Z.of_nat (S j)) * scale in
     Qred (sum_Q (imap (λ k v, overlap k a b * v) src) / scale))
  <$> seq 0 n_dst.

Fixpoint transpose {A} (g : grid A) : grid A :=
  match g with
  | [] => []
  | [row] => (λ x, [x]) <$> row
  | row :: rest => zip_with cons row (transpose rest)
  end.

Definition area_2d (h w : nat) (g : grid Q) : grid Q :=
  transpose (map (area_1d h) (transpose (map (area_1d w) g))).

(** Rounding to the nearest integer, halves up. *)
Definition round_half_up (x : Q) : Z := Qfloor (x + (1 # 2)).

Definition channel (f : Z * Z * Z → Z) (img : Image) : grid Q :=
  grid_map (λ p, inject_Z (f p)) img.

Definition resize_area (img : Image) (w h : Z) : Image :=
  let plane f :=
    grid_map round_half_up
      (area_2d (Z.to_nat h) (Z.to_nat w) (channel f img)) in
  grid_zip (λ c0 '(c1, c2), (c0, c1, c2))
    (plane (λ p, p.1.1))
    (grid_zip pair (plane (λ p, p.1.2)) (plane (λ p, p.2))).

(** **** Grey levels *)

Definition rgb2gray (img : Image) : grid Z :=
  grid_map (λ '(r, g, b), ((299 * r + 587 * g + 114 * b + 500) / 1000)%Z)
    img.

(** **** Gaussian blur *)

(** Weights of the offsets 0 to 5, in units of [10^-9]; with the mirrored
    offsets they sum to one. *)
Definition kernel : list Z :=
  [266011724; 213005538; 109360690; 36000772; 7598758; 1028380]%Z.

Definition weight (k : Z) : Q :=
  default 0%Z (kernel !! Z.to_nat (Z.abs k)) # 1000000000.

(** [BORDER_REFLECT_101]: the index [i], possibly outside [[0, n)], is
    mirrored at the first and last element without repeating them. *)
Definition reflect101 (n i : Z) : Z :=
  if (n <=? 1)%Z then 0%Z
  else
    let period := (2 * (n - 1))%Z in
    let j := (i mod period)%Z in
    if (j <? n)%Z then j else (period - j)%Z.

Definition offsets : list Z := [-5; -4; -3; -2; -1; 0; 1; 2; 3; 4; 5]%Z.

Definition blur_1d (row : list Q) : list Q :=
  let n := Z.of_nat (length row) in
  (λ i : nat,
     Qred (sum_Q
       ((λ k, weight k *
              default 0 (row !! Z.to_nat (reflect101 n (Z.of_nat i + k))))
        <$> offsets)))
  <$> seq 0 (length row).

Definition blur (g : grid Q) : grid Q :=
  transpose (map blur_1d (transpose (map blur_1d g))).

(** **** Connected components *)

Definition lit (bin : grid Z) (p : Point) : bool :=
  match pixel bin p with
  | Some v => negb (v =? 0)%Z
  | None => false
  end.

Definition neighbours (p : Point) : list Point :=
  let '(x, y) := p in
  [(x - 1, y - 1); (x, y - 1); (x + 1, y - 1);
   (x - 1, y);                 (x + 1, y);
   (x - 1, y + 1); (x, y + 1); (x + 1, y + 1)]%Z.

(** Worklist flood fill: [seen] are the pixels collected so far. *)
Fixpoint flood (fuel : nat) (bin : grid Z) (todo seen : list Point)
  : list Point :=
  match fuel with
  | O => seen
  | S fuel' =>
    match todo with
    | [] => seen
    | p :: todo' =>
      if lit bin p && negb (bool_decide (p ∈ seen))
      then flood fuel' bin (neighbours p ++ todo') (p :: seen)
      else flood fuel' bin todo' seen
    end
  end.

Definition all_points {A} (g : grid A) : list Point :=
  concat (imap (λ y row, imap (λ x _, (Z.of_nat x, Z.of_nat y)) row) g).

Definition flood_fuel {A} (g : grid A) : nat :=
  S (9 * length (all_points g)).

Fixpoint components_from (bin : grid Z) (points : list Point)
    (found : list (list Point)) : list (list Point) :=
  match points with
  | [] => found
  | p :: rest =>
    if lit bin p && negb (existsb (λ c, bool_decide (p ∈ c)) found)
    then components_from bin rest
           (found ++ [flood (flood_fuel bin) bin [p] []])
    else components_from bin rest found
  end.

Definition components (bin : grid Z) : list (list Point) :=
  components_from bin (all_points bin) [].

#[global] Instance opencv : OpenCV Q := {|
  imdecode := decode;
  resize := resize_area;
  cvtColor_RGB2GRAY := rgb2gray;
  GaussianBlur := blur;
  findContours := components;
  imencode_png := λ _, None
|}.

(** A binary PGM file of [w] x [h] pixels. *)
Definition pgm (w h : string) (raster : list byte) : list byte :=
  list_byte_of_string ("P5 " +:+ w +:+ " " +:+ h +:+ " 255 ") ++ raster.

(** Test images: 8 x 8 all black, 8 x 8 all white, and the two 2 x 1
    images with one black and one white pixel. *)
Definition black8 : list byte := pgm "8" "8" (repeat x00 64).
Definition white8 : list byte := pgm "8" "8" (repeat xff 64).
Definition dark_bright : list byte := pgm "2" "1" [x00; xff].
Definition bright_dark : list byte := pgm "2" "1" [xff; x00].

End ExactLib.

(** *** Repeated scans of one page *)

(** The items of [l] whose signature is not in [seen], each signature
    once: a later item with the signature of an earlier one is skipped. *)
Fixpoint unseen (seen : gset string) (l : list Item) : list Item :=
  match l with
  | [] => []
  | item :: rest =>
    if decide (it_signature item ∈ seen) then unseen seen rest
    else item :: unseen (seen ∪ {[ it_signature item ]}) rest
  end.

(** Scans of the same page, one per clock reading: what each scan
    returned, and the explorer after the last one. *)
Fixpoint scan_repeatedly (page : Page) (nows : list Z)
    (self : DeterministicExplorer)
  : list (option (WebElement * string)) * DeterministicExplorer :=
  match nows with
  | [] => ([], self)
  | now :: later =>
    let '(found, self') := get_next_interactive_element now self page in
    let '(founds, self'') := scan_repeatedly page later self' in
    (found :: founds, self'')
  end.

(** The first [n] selections taken from [order], then nothing. *)
Fixpoint selections (n : nat) (order : list Item)
  : list (option (WebElement * string)) :=
  match n with
  | O => []
  | S n' =>
    match order with
    | [] => None :: selections n' []
    | item :: rest => Some (selection_of item) :: selections n' rest
    end
  end.

(** *** Two elements that differ after the thirtieth character *)
Module LongLabels.

Definition card (label : string) : WebElement :=
  {| el_text := Ret label;
     el_get_attribute := fun _ => Ret None;
     el_location := Ret {| loc_x := 40; loc_y := 120 |};
     el_tag_name := Ret "a";
     el_size := Ret {| size_width := 300; size_height := 40 |};
     el_is_displayed := Ret true;
     el_is_enabled := Ret true |}.

Definition first : WebElement :=
  card "Quarterly revenue report for the north region".

Definition second : WebElement :=
  card "Quarterly revenue report for the south region".

End LongLabels.

(** *** More arithmetic laws *)

Section CompareVocabularyMore.
Context {F D : Type} `{!Numeric F D} `{!OpenCV F}.

(** Addition and multiplication do not depend on the order of their
    arguments. *)
Definition add_mul_commute : Prop :=
  (∀ x y : F, f_add x y = f_add y x) ∧ (∀ x y : F, f_mul x y = f_mul y x).

(** A similarity of one is no dissimilarity: scaled to 8 bits it does not
    exceed the threshold. *)
Definition full_similarity_is_background : Prop :=
  f_to_uint8 (f_mul (f_clip01 (f_sub f_one f_one)) f_255) ≤ 30.

End CompareVocabularyMore.

(** A computation on the driver that never raises. *)
Definition returns {B A} (c : Driven B A) : Prop :=
  ∀ b, ∃ a, (c b).2 = Ret a.

(** *** A driver whose CDP calls fail and whose screenshots report failure

    The state is the list of calls made so far, latest first. *)
Module FlakyDriver.

#[global] Instance driver : WebDriver (list string) := {|
  execute_script := λ js b,
    ("execute_script" :: b,
     Ret (if bool_decide (js = "return window.innerHeight")
          then 800 else 4000));
  save_screenshot := λ path b, ("save_screenshot" :: b, Ret false);
  execute_cdp_cmd := λ name _ b, (name :: b, Raise);
  write_decoded := λ _ _ b, ("write" :: b, Ret ());
  is_short_page := λ total_height viewport_height,
    10 * total_height <=? 12 * viewport_height
|}.

End FlakyDriver.

(** *** A page that never changes, with a driver that always succeeds *)
Module StaticPage.

#[global] Instance selenium : Selenium unit := {|
  get_available_browsers := ["edge"; "chrome"];
  create_driver := fun browser =>
    if bool_decide (browser = "edge") then Raise else Ret ();
  driver_get := fun w _ => Ret w;
  wait_for_body := fun w => (w, WaitTimeout);
  scroll_to_top := fun w => w;
  find_elements := fun _ => ThreeButtons.page;
  clock := fun _ => 1700000000;
  click_element := fun w _ => (w, true);
  capture_web_screenshot := fun w _ => (w, true);
  driver_quit := fun _ => true
|}.

End StaticPage.

(** * Properties *)

(** ** Safety filter *)

Lemma is_safe_element_unfold el :
  is_safe_element el =
  match safety_text el with
  | Raise => false
  | Ret text =>
    if has_avoid_keyword text then false
    else match el_get_attribute el "role" with
         | Raise => false
         | Ret role => negb (is_dialog_role role)
         end
  end.
Proof.
  unfold is_safe_element, try_except.
  destruct (safety_text el) as [|text]; simpl; [done|].
  destruct (has_avoid_keyword text); simpl; [done|].
  destruct (el_get_attribute el "role") as [|role]; simpl; [done|].
  by destruct (is_dialog_role role).
Qed.

Lemma is_dialog_role_spec role :
  is_dialog_role role = true ↔
  role = Some "alertdialog" ∨ role = Some "dialog".
Proof.
  destruct role as [s|]; simpl.
  - rewrite orb_true_iff, !bool_decide_eq_true.
    split; [intros [->| ->]; auto | intros [[= ->]|[= ->]]; auto].
  - split; [done | intros [?|?]; done].
Qed.

(** C9, as stated, fails: the text chosen for the signature of
    [logout_by_id] is ["logout"], a denylist word, and the element is
    judged safe. *)
Lemma is_safe_element_ignores_id :
  signature_text logout_by_id = Ret "logout" ∧
  has_avoid_keyword (PyStr.lower "logout") = true ∧
  is_safe_element logout_by_id = true.
Proof. by vm_compute. Qed.

(** C9 (amended): [is_safe_element] returns [True] exactly when the reads
    it performs succeed, the lower-cased text it chooses (visible text
    trimmed, else [aria-label], else [name], else the empty string; the
    [id] is not consulted) contains no denylist word, and the [role]
    attribute is neither [alertdialog] nor [dialog]; in every other case,
    a failed read included, it returns [False]. *)
Theorem is_safe_element_spec el :
  is_safe_element el = true ↔
  ∃ text role,
    safety_text el = Ret text ∧
    (∀ bad, bad ∈ avoid_keywords → PyStr.contains bad text = false) ∧
    el_get_attribute el "role" = Ret role ∧
    role ≠ Some "alertdialog" ∧ role ≠ Some "dialog".
Proof.
  rewrite is_safe_element_unfold. split.
  - destruct (safety_text el) as [|text]; [done|].
    destruct (has_avoid_keyword text) eqn:Hkw; [done|].
    destruct (el_get_attribute el "role") as [|role]; [done|].
    intros Hrole%negb_true_iff. exists text, role.
    split_and!; try done.
    + intros bad Hbad. unfold has_avoid_keyword in Hkw.
      destruct (PyStr.contains bad text) eqn:Hc; [|done].
      assert (existsb (λ b, PyStr.contains b text) avoid_keywords = true)
        as Hex; [|congruence].
      apply existsb_exists. exists bad. by rewrite <- list_elem_of_In.
    + intros ->. by vm_compute in Hrole.
    + intros ->. by vm_compute in Hrole.
  - intros (text & role & -> & Hkw & -> & Hr1 & Hr2).
    destruct (has_avoid_keyword text) eqn:Hex.
    + apply existsb_exists in Hex as (bad & Hin & Hc).
      rewrite <- list_elem_of_In in Hin. by rewrite (Hkw bad Hin) in Hc.
    + apply negb_true_iff. destruct (is_dialog_role role) eqn:Hd; [|done].
      apply is_dialog_role_spec in Hd as [?|?]; done.
Qed.

(** ** Ranking *)

Arguments key_ltb : simpl never.
Arguments sort_key : simpl never.

Lemma key_ltb_spec (a b : Z * Z * Z) :
  key_ltb a b = true ↔
  a.1.1 < b.1.1 ∨
  (a.1.1 = b.1.1 ∧ (a.1.2 < b.1.2 ∨ (a.1.2 = b.1.2 ∧ a.2 < b.2))).
Proof.
  destruct a as [[a1 a2] a3], b as [[b1 b2] b3]; unfold key_ltb; simpl.
  rewrite !orb_true_iff, !andb_true_iff, !orb_true_iff, !andb_true_iff,
    !Z.ltb_lt, !Z.eqb_eq.
  tauto.
Qed.

Lemma key_ltb_false (a b : Z * Z * Z) :
  key_ltb a b = false ↔
  b.1.1 < a.1.1 ∨
  (a.1.1 = b.1.1 ∧ (b.1.2 < a.1.2 ∨ (a.1.2 = b.1.2 ∧ b.2 ≤ a.2))).
Proof.
  rewrite <- not_true_iff_false, key_ltb_spec. lia.
Qed.

Lemma key_le_trans a b c : key_le a b → key_le b c → key_le a c.
Proof. unfold key_le. rewrite !key_ltb_false. lia. Qed.

Lemma key_le_total a b : key_le a b ∨ key_le b a.
Proof. unfold key_le. rewrite !key_ltb_false. lia. Qed.

Lemma key_ltb_le a b :
  key_ltb (sort_key a) (sort_key b) = true → key_le a b.
Proof. unfold key_le. rewrite key_ltb_spec, key_ltb_false. lia. Qed.

Lemma insert_item_perm k l : insert_item k l ≡ₚ k :: l.
Proof.
  induction l as [|h t IH]; simpl; [done|].
  destruct (key_ltb (sort_key h) (sort_key k)); [|reflexivity].
  rewrite IH. apply Permutation_swap.
Qed.

Lemma sort_items_perm l : sort_items l ≡ₚ l.
Proof.
  induction l as [|k l IH]; simpl; [done|].
  by rewrite insert_item_perm, IH.
Qed.

Lemma insert_item_sorted k l :
  StronglySorted key_le l → StronglySorted key_le (insert_item k l).
Proof.
  induction 1 as [|h t Hs IH Hh]; simpl.
  - repeat constructor.
  - destruct (key_ltb (sort_key h) (sort_key k)) eqn:Hlt.
    + constructor; [done|].
      rewrite Forall_forall. intros x Hx.
      rewrite insert_item_perm in Hx.
      apply elem_of_cons in Hx as [->|Hx].
      * by apply key_ltb_le.
      * rewrite Forall_forall in Hh. by apply Hh.
    + constructor; [by constructor|].
      constructor; [done|].
      eapply Forall_impl; [exact Hh|].
      intros x Hx. by eapply key_le_trans.
Qed.

Lemma sort_items_sorted l : StronglySorted key_le (sort_items l).
Proof.
  induction l as [|k l IH]; simpl; [constructor|].
  by apply insert_item_sorted.
Qed.



(** ** Candidate filter *)

(** What survives the filter pipeline of one scan. *)
Lemma valid_item_Some visited el item :
  valid_item visited el = Some item →
  el_is_displayed el = Ret true ∧
  el_is_enabled el = Ret true ∧
  is_safe_element el = true ∧
  get_element_signature el = Some (it_signature item) ∧
  (it_signature item ∉ visited) ∧
  it_element item = el ∧
  (∃ loc size,
     el_location el = Ret loc ∧ el_size el = Ret size ∧
     it_x item = loc_x loc ∧ it_y item = loc_y loc ∧
     it_area item = size_width size * size_height size).
Proof.
  unfold valid_item, try_except.
  destruct (el_is_displayed el) as [|[]]; simpl; try done.
  destruct (el_is_enabled el) as [|[]]; simpl; try done.
  destruct (is_safe_element el); simpl; try done.
  destruct (get_element_signature el) as [sig|]; simpl; try done.
  destruct (PyStr.truthy sig); simpl; try done.
  destruct (bool_decide (sig ∈ visited)) eqn:Hv; simpl; try done.
  apply bool_decide_eq_false in Hv.
  destruct (el_location el) as [|loc]; simpl; try done.
  destruct (el_size el) as [|size]; simpl; try done.
  destruct (el_text el) as [|t]; simpl; try done.
  destruct (py_or _ _) as [|a]; simpl; try done.
  destruct (py_or a _) as [|[text|]]; simpl; try done.
  intros [= <-]; simpl. split_and!; try done. by exists loc, size.
Qed.

Lemma valid_elements_unvisited visited candidates item :
  item ∈ valid_elements visited candidates →
  it_signature item ∉ visited.
Proof.
  unfold valid_elements. rewrite list_elem_of_omap.
  intros (el & _ & Hv).
  by apply valid_item_Some in Hv as (_ & _ & _ & _ & Hv & _).
Qed.


(** ** Selection *)

Lemma select_first_head now self item rest :
  it_signature item ∉ visited_signatures self →
  select_first now self (item :: rest) =
  (Some (selection_of item), mark_visited now self item).
Proof.
  intros Hv. simpl. by rewrite bool_decide_eq_false_2.
Qed.

(** Every outcome of [select_first]: nothing selected and the explorer
    untouched, or one item of the list selected whose signature was not
    visited and is now recorded. *)
Lemma select_first_cases now self items :
  select_first now self items = (None, self) ∨
  ∃ item, item ∈ items ∧
    (it_signature item ∉ visited_signatures self) ∧
    select_first now self items =
    (Some (selection_of item), mark_visited now self item).
Proof.
  induction items as [|item rest IH]; simpl; [by left|].
  case_bool_decide as Hv.
  - destruct IH as [IH|(it & Hin & Hnv & IH)]; [by left|].
    right. exists it. split_and!; [by right|done|done].
  - right. exists item. split_and!; [by left|done|done].
Qed.

Lemma get_next_interactive_element_cases now self page :
  get_next_interactive_element now self page = (None, self) ∨
  ∃ item,
    (it_signature item ∉ visited_signatures self) ∧
    get_next_interactive_element now self page =
    (Some (selection_of item), mark_visited now self item).
Proof.
  unfold get_next_interactive_element.
  destruct (valid_elements _ _) as [|i l]; [by left|].
  destruct (select_first_cases now self (sort_items (i :: l)))
    as [H|(item & _ & Hv & H)]; [by left|].
  right. by exists item.
Qed.


(** Three buttons at [(x=10, y=300)], [(x=200, y=50)] and [(x=10, y=50)],
    the last one labelled "Logout": the filter drops "Logout" and the
    ranking puts the button of the top row first. *)
Example ranked_three_buttons :
  it_signature <$> ranked ∅ ThreeButtons.page
  = ["button_Reports_200_50"; "button_Settings_10_300"] ∧
  (get_next_interactive_element 0 new_explorer ThreeButtons.page).1
  = Some (ThreeButtons.button "Reports" 200 50, "Reports").
Proof. split; by vm_compute. Qed.

(** ** At-most-once visitation *)

Lemma explorer_inv_new : explorer_inv new_explorer.
Proof.
  split; [constructor|]. intros sig Hsig. by apply elem_of_nil in Hsig.
Qed.

Lemma log_signatures_mark now self item :
  log_signatures (mark_visited now self item) =
  log_signatures self ++ [it_signature item].
Proof. unfold log_signatures. simpl. by rewrite fmap_app. Qed.

Lemma explorer_inv_mark now self item :
  it_signature item ∉ visited_signatures self →
  explorer_inv self →
  explorer_inv (mark_visited now self item).
Proof.
  intros Hv [Hnd Hsub]. split.
  - rewrite log_signatures_mark.
    apply NoDup_app. split_and!; [done| |apply NoDup_singleton].
    intros sig Hin ->%list_elem_of_singleton. by apply Hv, Hsub.
  - intros sig. rewrite log_signatures_mark, elem_of_app. simpl.
    intros [Hin| ->%list_elem_of_singleton]; [|set_solver].
    apply elem_of_union_l. by apply Hsub.
Qed.

Lemma explorer_inv_get_next now self page :
  explorer_inv self →
  explorer_inv (get_next_interactive_element now self page).2.
Proof.
  intros Hinv.
  destruct (get_next_interactive_element_cases now self page)
    as [->|(item & Hv & ->)]; [done|].
  by apply explorer_inv_mark.
Qed.

Lemma foldl_scan_inv scans self :
  explorer_inv self →
  explorer_inv
    (foldl (λ self scan,
              (get_next_interactive_element scan.1 self scan.2).2)
           self scans).
Proof.
  revert self. induction scans as [|[now page] scans IH]; intros self Hinv;
    simpl; [done|].
  by apply IH, explorer_inv_get_next.
Qed.

(** C1: in one session of a [DeterministicExplorer], whatever pages the
    scans see, no two log entries carry the same signature and every logged
    signature is in the visited set; each scan either selects nothing and
    leaves the explorer as it is, or selects an element whose signature was
    not visited, adds that signature to the visited set and appends it to
    the log at once. *)
Theorem log_signatures_NoDup scans :
  NoDup (log_signatures (scan_session scans)) ∧
  (∀ sig, sig ∈ log_signatures (scan_session scans) →
          sig ∈ visited_signatures (scan_session scans)) ∧
  ∀ now page,
    let self := scan_session scans in
    get_next_interactive_element now self page = (None, self) ∨
    ∃ item,
      (it_signature item ∉ visited_signatures self) ∧
      get_next_interactive_element now self page =
      (Some (selection_of item), mark_visited now self item).
Proof.
  destruct (foldl_scan_inv scans new_explorer explorer_inv_new)
    as [Hnd Hsub].
  split_and!; [done|done|].
  intros now page self. apply get_next_interactive_element_cases.
Qed.


(** ** Capture budget *)

Section EngineProperties.
Context {W : Type} `{!Selenium W}.

(** One iteration appends at most one capture, and appends one only when
    both the click and the capture succeeded; the explorer goes through
    exactly one scan. *)
Lemma explore_step_cases self s :
  let w := s_world s in
  let scan := get_next_interactive_element (clock w) (s_explorer s)
                (find_elements w) in
  ∃ continue s', explore_step self s = (continue, s') ∧
    s_explorer s' = scan.2 ∧
    (continue = false ↔ scan.1 = None) ∧
    ((s_screenshots s' = s_screenshots s ∧ s_count s' = s_count s) ∨
     (∃ element text path,
        scan.1 = Some (element, text) ∧
        (click_element w element).2 = true ∧
        (capture_web_screenshot (click_element w element).1 path).2
          = true ∧
        s_screenshots s' = s_screenshots s ++ [path] ∧
        s_count s' = s_count s + 1)).
Proof.
  intros w scan. unfold explore_step. fold w. fold scan.
  destruct scan as [[[element text]|] explorer] eqn:Hscan; simpl.
  - destruct (click_element w element) as [w1 clicked] eqn:Hclick.
    destruct clicked.
    + match goal with
      | |- context [capture_web_screenshot w1 ?p] =>
          set (path := p);
          destruct (capture_web_screenshot w1 path) as [w2 captured]
            eqn:Hcap
      end.
      destruct captured.
      * eexists _, _. split_and!; [done|done|done|].
        right. exists element, text, path.
        rewrite Hclick. simpl. rewrite Hcap. done.
      * eexists _, _. split_and!; [done|done|done|]. by left.
    + eexists _, _. split_and!; [done|done|done|]. by left.
  - eexists _, _. split_and!; [done|done|done|]. by left.
Qed.

(** The loop appends at most [n] captures and keeps [screenshot_count]
    in step with the list. *)
Lemma explore_loop_app self n s :
  ∃ extra,
    s_screenshots (explore_loop self n s) = s_screenshots s ++ extra ∧
    (length extra ≤ n)%nat ∧
    s_count (explore_loop self n s) = s_count s + Z.of_nat (length extra).
Proof.
  revert s. induction n as [|n IH]; intros s; simpl.
  - exists []. rewrite app_nil_r. simpl. split_and!; [done|done|lia].
  - destruct (explore_step_cases self s)
      as (continue & s' & -> & _ & _ & Hs).
    assert (∃ one, s_screenshots s' = s_screenshots s ++ one ∧
                   (length one ≤ 1)%nat ∧
                   s_count s' = s_count s + Z.of_nat (length one))
      as (one & Hone & Hlen & Hcnt).
    { destruct Hs as [[-> ->]|(_ & _ & path & _ & _ & _ & -> & ->)].
      - exists []. rewrite app_nil_r. simpl. split_and!; [done|lia|lia].
      - exists [path]. simpl. split_and!; [done|lia|lia]. }
    destruct continue.
    + destruct (IH s') as (extra & -> & Hlen' & ->).
      exists (one ++ extra).
      rewrite Hone, <- app_assoc, length_app.
      split_and!; [done|lia|lia].
    + exists one. split_and!; [done|lia|done].
Qed.

Lemma explore_loop_inv self n s :
  explorer_inv (s_explorer s) →
  explorer_inv (s_explorer (explore_loop self n s)).
Proof.
  revert s. induction n as [|n IH]; intros s Hinv; simpl; [done|].
  destruct (explore_step_cases self s)
    as (continue & s' & -> & Hex & _ & _).
  assert (explorer_inv (s_explorer s')) as Hinv'.
  { rewrite Hex. by apply explorer_inv_get_next. }
  destruct continue; [by apply IH|done].
Qed.

(** The captures of a run: the baseline, if it succeeded, followed by at
    most [MAX_SCREENSHOTS - 1] (resp. [MAX_SCREENSHOTS]) captures of the
    exploration. *)
Lemma capture_phases_bound self cfg w :
  Z.of_nat (length (s_screenshots (capture_phases self cfg w)))
  ≤ Z.max 1 (MAX_SCREENSHOTS cfg).
Proof.
  unfold capture_phases.
  match goal with
  | |- context [capture_web_screenshot w ?p] =>
      destruct (capture_web_screenshot w p) as [w1 captured]
  end.
  destruct captured; simpl.
  - destruct (1 <? MAX_SCREENSHOTS cfg) eqn:Hlt; simpl; [|lia].
    apply Z.ltb_lt in Hlt.
    match goal with
    | |- context [explore_loop self ?n ?s] =>
        destruct (explore_loop_app self n s) as (extra & -> & Hlen & _)
    end.
    simpl. simpl in Hlen. lia.
  - destruct (0 <? MAX_SCREENSHOTS cfg) eqn:Hlt; simpl; [|lia].
    apply Z.ltb_lt in Hlt.
    match goal with
    | |- context [explore_loop self ?n ?s] =>
        destruct (explore_loop_app self n s) as (extra & -> & Hlen & _)
    end.
    simpl. simpl in Hlen. lia.
Qed.

Lemma capture_phases_inv self cfg w :
  explorer_inv (s_explorer (capture_phases self cfg w)).
Proof.
  unfold capture_phases.
  match goal with
  | |- context [capture_web_screenshot w ?p] =>
      destruct (capture_web_screenshot w p) as [w1 captured]
  end.
  destruct captured; simpl.
  - destruct (1 <? MAX_SCREENSHOTS cfg); simpl;
      [apply explore_loop_inv|]; apply explorer_inv_new.
  - destruct (0 <? MAX_SCREENSHOTS cfg); simpl;
      [apply explore_loop_inv|]; apply explorer_inv_new.
Qed.

Lemma run_session_capture_phases self url cfg s :
  run_session self url cfg = Ret s →
  ∃ w, s = capture_phases self cfg w.
Proof.
  unfold run_session.
  destruct (first_driver _) as [w0|]; [|done].
  destruct (driver_get w0 url) as [|w1]; [done|].
  destruct (wait_for_body w1) as [w2 []]; try done;
    intros [= <-]; by exists w2.
Qed.

(** The explorer of a whole run never logs a signature twice. *)
Lemma run_session_log_NoDup self url cfg s :
  run_session self url cfg = Ret s →
  NoDup (log_signatures (s_explorer s)).
Proof.
  intros (w & ->)%run_session_capture_phases.
  apply capture_phases_inv.
Qed.

Lemma run_web_exploration_length self url max_screenshots cfg l :
  (run_web_exploration self url max_screenshots cfg).1 = Ret l →
  Z.of_nat (length l)
  ≤ Z.max 1 (MAX_SCREENSHOTS (apply_max_screenshots max_screenshots cfg)).
Proof.
  unfold run_web_exploration. simpl.
  destruct (run_session _ _ _) as [|s] eqn:Hs; simpl; [done|].
  destruct (driver_quit _); [|done]. intros [= <-].
  apply run_session_capture_phases in Hs as (w & ->).
  apply capture_phases_bound.
Qed.

(** C3 (amended): for a capture limit of at least one, a run that
    returns, returns at most that many captures; the run returns whenever
    a driver could be created, the page load did not raise and
    [driver.quit()] succeeded; the loop is a bounded [for], so the run
    ends even when every scan finds a new candidate; and an iteration
    whose click or capture failed leaves the result as it is. *)
Theorem run_web_exploration_bounded self url (m : Z) cfg :
  1 ≤ m →
  match (run_web_exploration self url (Some m) cfg).1 with
  | Ret l => Z.of_nat (length l) ≤ m
  | Raise =>
    run_session self url (set_MAX_SCREENSHOTS m cfg) = Raise ∨
    ∃ s, run_session self url (set_MAX_SCREENSHOTS m cfg) = Ret s ∧
         driver_quit (s_world s) = false
  end ∧
  ∀ s, ∃ continue s',
    explore_step self s = (continue, s') ∧
    ((s_screenshots s' = s_screenshots s ∧ s_count s' = s_count s) ∨
     (∃ element text path,
        (get_next_interactive_element (clock (s_world s)) (s_explorer s)
           (find_elements (s_world s))).1 = Some (element, text) ∧
        (click_element (s_world s) element).2 = true ∧
        (capture_web_screenshot
           (click_element (s_world s) element).1 path).2 = true ∧
        s_screenshots s' = s_screenshots s ++ [path] ∧
        s_count s' = s_count s + 1)).
Proof.
  intros Hm. split.
  - destruct (run_web_exploration self url (Some m) cfg).1 as [|l] eqn:Hr.
    + revert Hr. unfold run_web_exploration, apply_max_screenshots.
      simpl. replace (m =? 0) with false by lia. simpl.
      destruct (run_session _ _ _) as [|s]; simpl; [by left|].
      destruct (driver_quit (s_world s)) eqn:Hq; [done|].
      intros _. right. by exists s.
    + apply run_web_exploration_length in Hr.
      revert Hr. unfold apply_max_screenshots. simpl.
      replace (m =? 0) with false by lia. simpl. lia.
  - intros s.
    destruct (explore_step_cases self s) as (c & s' & H1 & _ & _ & H2).
    by exists c, s'.
Qed.

(** C10 (amended): a call with a non-zero [max_screenshots] leaves
    [Config.MAX_SCREENSHOTS] set to it, whatever else the call does, and
    any later run without the argument, by any engine, behaves as if it
    had been given that limit. *)
Theorem run_web_exploration_sets_config self url (m : Z) cfg :
  m ≠ 0 →
  (run_web_exploration self url (Some m) cfg).2
    = set_MAX_SCREENSHOTS m cfg ∧
  ∀ self' url',
    run_web_exploration self' url' None
      (run_web_exploration self url (Some m) cfg).2
    = run_web_exploration self' url' (Some m) cfg.
Proof.
  intros Hm. unfold run_web_exploration, apply_max_screenshots. simpl.
  replace (m =? 0) with false by lia. simpl. done.
Qed.

End EngineProperties.


(** With the limit [0] the argument counts as absent: the run on the
    endless page keeps the default limit and returns five captures. *)
Lemma run_web_exploration_zero_limit :
  ∃ l, (run_web_exploration (W:=Z) EndlessPage.engine EndlessPage.url (Some 0)
          default_config).1 = Ret l ∧
       ¬ (Z.of_nat (length l) ≤ 0).
Proof. eexists. split; [vm_compute; reflexivity|]. simpl. lia. Qed.

(** The bound at the limit 3, on a page that always offers a new link:
    the baseline and two captures. *)
Lemma run_web_exploration_bounded_witness :
  match (run_web_exploration (W:=Z) EndlessPage.engine EndlessPage.url (Some 3)
           default_config).1 with
  | Ret l => Z.of_nat (length l) ≤ 3
  | Raise => False
  end.
Proof.
  pose proof (run_web_exploration_bounded (W:=Z) EndlessPage.engine
                EndlessPage.url 3 default_config ltac:(lia)) as [H _].
  revert H.
  assert ((run_web_exploration (W:=Z) EndlessPage.engine EndlessPage.url (Some 3)
             default_config).1 =
          Ret ["output/screen_000_initial_full.png";
               "output/screen_001_action_1_full.png";
               "output/screen_002_action_2_full.png"]) as ->
    by (vm_compute; reflexivity).
  done.
Defined.

(** [max_screenshots=0] is not [None], and [Config] is left as it was. *)
Lemma run_web_exploration_zero_keeps_config :
  (run_web_exploration (W:=Z) EndlessPage.engine EndlessPage.url (Some 0)
     default_config).2 = default_config ∧
  MAX_SCREENSHOTS default_config ≠ 0.
Proof. split; [reflexivity | by vm_compute]. Qed.

(** A run with the limit 3 leaves the limit 3 behind for later runs. *)
Lemma run_web_exploration_sets_config_witness :
  (run_web_exploration (W:=Z) EndlessPage.engine EndlessPage.url (Some 3)
     default_config).2 = set_MAX_SCREENSHOTS 3 default_config ∧
  ∀ self' url',
    run_web_exploration (W:=Z) self' url' None
      (run_web_exploration (W:=Z) EndlessPage.engine EndlessPage.url (Some 3)
         default_config).2
    = run_web_exploration (W:=Z) self' url' (Some 3) default_config.
Proof.
  apply (run_web_exploration_sets_config (W:=Z) EndlessPage.engine
           EndlessPage.url 3 default_config).
  lia.
Defined.


(** ** Bounding rectangles and components *)










Lemma pixel_grid_map {A B} (f : A → B) (g : grid A) p :
  pixel (grid_map f g) p = f <$> pixel g p.
Proof.
  unfold pixel, grid_map.
  destruct ((0 <=? p.1) && (0 <=? p.2)); [|done].
  change (map (map f) g) with ((map f) <$> g).
  rewrite list_lookup_fmap.
  destruct (g !! Z.to_nat p.2) as [row|]; simpl; [|done].
  apply (list_lookup_fmap f row).
Qed.

(** The foreground of the thresholded map: the pixels above the
    threshold. *)
Lemma nonzero_threshold_binary g t p :
  nonzero (threshold_binary g t 255) p ↔ exceeds g t p.
Proof.
  unfold nonzero, exceeds, threshold_binary. rewrite pixel_grid_map.
  destruct (pixel g p) as [v|]; simpl.
  - destruct (t <? v) eqn:Hlt.
    + apply Z.ltb_lt in Hlt. split; intros _; eexists; split; done.
    + apply Z.ltb_ge in Hlt. split.
      * by intros (? & [= <-] & ?).
      * intros (? & [= <-] & ?). lia.
  - split; by intros (? & ? & _).
Qed.

(** ** Image comparison *)

Section CompareProperties.
Context {F D : Type} `{!Numeric F D} `{!OpenCV F}.

Lemma bytes_to_rgb_array_cases b :
  match imdecode b with
  | Ret (Some bgr) => _bytes_to_rgb_array b = Ret (cvtColor_BGR2RGB bgr)
  | _ => _bytes_to_rgb_array b = Raise
  end.
Proof.
  unfold _bytes_to_rgb_array. by destruct (imdecode b) as [|[bgr|]].
Qed.

Lemma bytes_to_rgb_array_Raise b :
  _bytes_to_rgb_array b = Raise ↔ ¬ decodable b.
Proof.
  pose proof (bytes_to_rgb_array_cases b) as Hc. unfold decodable.
  destruct (imdecode b) as [|[bgr|]]; rewrite Hc.
  - split; [|done]. by intros _ [bgr ?].
  - split; [done|]. intros Hn. destruct Hn. by exists bgr.
  - split; [|done]. by intros _ [bgr ?].
Qed.

Lemma compute_ssim_and_diff_unfold b1 b2 :
  compute_ssim_and_diff b1 b2 =
  match _bytes_to_rgb_array b1, _bytes_to_rgb_array b2 with
  | Ret img1, Ret img2 => Ret (compare_arrays img1 img2)
  | _, _ => Raise
  end.
Proof.
  unfold compute_ssim_and_diff.
  destruct (_bytes_to_rgb_array b1); simpl; [done|].
  by destruct (_bytes_to_rgb_array b2).
Qed.

Lemma compare_arrays_score img1 img2 :
  ∃ regions diff_bytes,
    compare_arrays img1 img2 =
    (times_100 (to_float (np_mean (similarity_map img1 img2))),
     regions, diff_bytes).
Proof.
  unfold compare_arrays, similarity_map.
  destruct (gray_pair img1 img2) as [gray1 gray2]. simpl.
  by eexists _, _.
Qed.

(** C8: the comparison raises exactly when one of the two buffers does
    not decode; when both decode it returns the triple of the similarity,
    the regions and the encoded difference image. *)
Theorem compute_ssim_and_diff_raises b1 b2 :
  (compute_ssim_and_diff b1 b2 = Raise ↔
   ¬ decodable b1 ∨ ¬ decodable b2) ∧
  match imdecode b1, imdecode b2 with
  | Ret (Some bgr1), Ret (Some bgr2) =>
    compute_ssim_and_diff b1 b2 =
    Ret (compare_arrays (cvtColor_BGR2RGB bgr1) (cvtColor_BGR2RGB bgr2))
  | _, _ => compute_ssim_and_diff b1 b2 = Raise
  end.
Proof.
  rewrite compute_ssim_and_diff_unfold. split.
  - rewrite <- !bytes_to_rgb_array_Raise.
    destruct (_bytes_to_rgb_array b1), (_bytes_to_rgb_array b2);
      (split; [intros ?; first [done | by left | by right]
              | intros [?|?]; done]).
  - pose proof (bytes_to_rgb_array_cases b1) as H1.
    pose proof (bytes_to_rgb_array_cases b2) as H2.
    destruct (imdecode b1) as [|[bgr1|]]; rewrite H1; try done.
    destruct (imdecode b2) as [|[bgr2|]]; by rewrite H2.
Qed.

(** C5 (amended): for every pair of decodable images the value returned
    is one hundred times the mean of the per-pixel similarity map, as
    [np.mean] computes it; nothing confines it to a range. *)
Theorem compute_ssim_and_diff_score b1 b2 :
  match _bytes_to_rgb_array b1, _bytes_to_rgb_array b2 with
  | Ret img1, Ret img2 =>
    ∃ regions diff_bytes,
      compute_ssim_and_diff b1 b2 =
      Ret (times_100 (to_float (np_mean (similarity_map img1 img2))),
           regions, diff_bytes)
  | _, _ => compute_ssim_and_diff b1 b2 = Raise
  end.
Proof.
  rewrite compute_ssim_and_diff_unfold.
  destruct (_bytes_to_rgb_array b1) as [|img1]; [done|].
  destruct (_bytes_to_rgb_array b2) as [|img2]; [done|].
  destruct (compare_arrays_score img1 img2) as (regions & diff & ->).
  by exists regions, diff.
Qed.

Lemma regions_of_elem contours reg :
  reg ∈ regions_of contours ↔
  ∃ cnt x y w h,
    cnt ∈ contours ∧ boundingRect cnt = (x, y, w, h) ∧
    50 ≤ w * h ∧ reg = region_dict x y w h (w * h).
Proof.
  induction contours as [|cnt rest IH]; simpl.
  - split; [by intros ?%elem_of_nil|].
    by intros (? & ? & ? & ? & ? & ?%elem_of_nil & _).
  - destruct (boundingRect cnt) as [[[x y] w] h] eqn:Hbr.
    destruct (w * h <? 50) eqn:Hlt.
    + apply Z.ltb_lt in Hlt. rewrite IH. split.
      * intros (c & x' & y' & w' & h' & Hin & H1 & H2 & H3).
        exists c, x', y', w', h'. split_and!; [by right|done..].
      * intros (c & x' & y' & w' & h' & Hin & H1 & H2 & H3).
        apply elem_of_cons in Hin as [->|Hin].
        -- rewrite Hbr in H1. injection H1 as <- <- <- <-. lia.
        -- by exists c, x', y', w', h'.
    + apply Z.ltb_ge in Hlt. rewrite elem_of_cons, IH. split.
      * intros [->|(c & x' & y' & w' & h' & Hin & H1 & H2 & H3)].
        -- exists cnt, x, y, w, h. split_and!; [by left|done..].
        -- exists c, x', y', w', h'. split_and!; [by right|done..].
      * intros (c & x' & y' & w' & h' & Hin & H1 & H2 & H3).
        apply elem_of_cons in Hin as [->|Hin].
        -- rewrite Hbr in H1. injection H1 as <- <- <- <-. by left.
        -- right. by exists c, x', y', w', h'.
Qed.

Lemma region_dict_lookup x y w h a :
  region_dict x y w h a !! "x" = Some x ∧
  region_dict x y w h a !! "y" = Some y ∧
  region_dict x y w h a !! "width" = Some w ∧
  region_dict x y w h a !! "height" = Some h ∧
  region_dict x y w h a !! "area" = Some a ∧
  region_dict x y w h a !! "severity" = None.
Proof. unfold region_dict. split_and!; by simplify_map_eq. Qed.

Lemma region_dict_dom x y w h a :
  dom (region_dict x y w h a)
  = ({["x"; "y"; "width"; "height"; "area"]} : gset string).
Proof.
  unfold region_dict. rewrite !dom_insert_L, dom_empty_L. set_solver.
Qed.

Lemma compute_ssim_and_diff_regions b1 b2 sim regions diff_bytes :
  compute_ssim_and_diff b1 b2 = Ret (sim, regions, diff_bytes) →
  ∃ img1 img2,
    _bytes_to_rgb_array b1 = Ret img1 ∧
    _bytes_to_rgb_array b2 = Ret img2 ∧
    regions =
    regions_of
      (findContours (threshold_binary (dissimilarity img1 img2) 30 255)).
Proof.
  rewrite compute_ssim_and_diff_unfold.
  destruct (_bytes_to_rgb_array b1) as [|img1]; [done|].
  destruct (_bytes_to_rgb_array b2) as [|img2]; [done|].
  intros Hret. exists img1, img2. split_and!; [done..|].
  revert Hret. unfold compare_arrays, dissimilarity, similarity_map.
  destruct (gray_pair img1 img2) as [gray1 gray2]. simpl.
  by intros [= _ <- _].
Qed.

(** C7 (amended): a region returned by [compute_ssim_and_diff] is a
    dictionary with exactly the keys [x], [y], [width], [height] and
    [area], where [area = width * height]; it has no severity.  The
    severity is derived by [process_run_id] for the row it stores:
    [major] exactly when the area exceeds 1000, [minor] otherwise. *)
Theorem region_severity b1 b2 sim regions diff_bytes reg
    comparison_id analysis :
  compute_ssim_and_diff b1 b2 = Ret (sim, regions, diff_bytes) →
  reg ∈ regions →
  reg !! "severity" = None ∧
  dom reg = ({["x"; "y"; "width"; "height"; "area"]} : gset string) ∧
  ∃ w h,
    reg !! "width" = Some w ∧ reg !! "height" = Some h ∧
    reg !! "area" = Some (w * h) ∧
    let cd := change_detail comparison_id reg analysis in
    (cd_severity cd = "major" ↔ 1000 < w * h) ∧
    (cd_severity cd = "minor" ↔ w * h ≤ 1000).
Proof.
  intros (img1 & img2 & _ & _ & ->)%compute_ssim_and_diff_regions
         (cnt & x & y & w & h & _ & _ & _ & ->)%regions_of_elem.
  destruct (region_dict_lookup x y w h (w * h))
    as (_ & _ & Hw & Hh & Ha & Hs).
  split_and!; [done|apply region_dict_dom|].
  exists w, h. split_and!; [done..|].
  unfold change_detail; simpl. rewrite Ha; simpl.
  destruct (1000 <? w * h) eqn:Hlt;
    [apply Z.ltb_lt in Hlt | apply Z.ltb_ge in Hlt];
    (split; split; intros ?; first [done | lia]).
Qed.

Lemma zip_with_diag {A B} (f : A → A → B) (l : list A) :
  zip_with f l l = map (λ x, f x x) l.
Proof. induction l as [|a l IH]; simpl; [done|]. by rewrite IH. Qed.

Lemma grid_zip_diag {A B} (f : A → A → B) (g : grid A) :
  grid_zip f g g = grid_map (λ x, f x x) g.
Proof.
  unfold grid_zip, grid_map. rewrite zip_with_diag.
  apply map_ext. intros row. apply zip_with_diag.
Qed.

Lemma grid_map_map {A B C} (f : A → B) (h : B → C) (g : grid A) :
  grid_map h (grid_map f g) = grid_map (λ x, h (f x)) g.
Proof.
  unfold grid_map. rewrite map_map. apply map_ext. intros row.
  apply map_map.
Qed.

Lemma grid_map_ext_in {A B} (f h : A → B) (g : grid A) :
  Forall (λ x, f x = h x) (concat g) → grid_map f g = grid_map h g.
Proof.
  unfold grid_map. induction g as [|row g IH]; simpl; [done|].
  intros [Hrow Hg]%Forall_app. f_equal; [|by apply IH].
  apply map_ext_in. intros x Hx%list_elem_of_In.
  rewrite Forall_forall in Hrow. by apply Hrow.
Qed.


(** With identical inputs the numerator and the denominator of the SSIM
    formula are the same array. *)
Lemma ssim_num_den_same gray :
  doubling_is_adding → ssim_num gray gray = ssim_den gray gray.
Proof.
  intros Hdouble. unfold ssim_num, ssim_den.
  unfold add_arr, plus_scalar, twice_plus.
  rewrite !grid_zip_diag, !grid_map_map.
  f_equal; unfold grid_map; apply map_ext; intros row; apply map_ext;
    intros x; by rewrite Hdouble.
Qed.

Lemma ssim_map_same gray :
  doubling_is_adding →
  self_division_is_one →
  Forall (λ d, f_isfinite d = true ∧ f_is_zero d = false)
         (concat (ssim_den gray gray)) →
  ssim_map gray gray = grid_map (λ _, f_one) (ssim_den gray gray).
Proof.
  intros Hdouble Hdiv Hden. unfold ssim_map.
  rewrite ssim_num_den_same by done.
  unfold divide_where_nonzero. rewrite grid_zip_diag.
  apply grid_map_ext_in.
  eapply Forall_impl; [exact Hden|].
  intros d [Hfin Hnz]. simpl. rewrite Hnz. by apply Hdiv.
Qed.



End CompareProperties.


(** ** The exact-arithmetic instance *)

Module ExactFacts.
Import ExactLib.

Lemma doubling : doubling_is_adding (F:=Q).
Proof. intros x. simpl. apply Qred_complete. ring. Qed.

Lemma self_division : self_division_is_one (F:=Q).
Proof.
  intros d _ Hnz. simpl in *.
  rewrite <- (Qred_complete 1 (d / d)); [done|].
  symmetry. apply Qmult_inv_r. intros Hd.
  apply Qeq_bool_iff in Hd. congruence.
Qed.









End ExactFacts.


(** ** Concrete comparisons *)

(** The mean similarity of the image "black, white" and the image "white,
    black" is negative, and the comparison returns it as it is. *)
Lemma compute_ssim_and_diff_negative_score :
  ∃ sim regions diff_bytes,
    compute_ssim_and_diff (F:=Q) (D:=Q)
      ExactLib.dark_bright ExactLib.bright_dark
    = Ret (sim, regions, diff_bytes) ∧
    ¬ (0 <= sim / 100)%Q.
Proof.
  eexists _, _, _. split; [vm_compute; reflexivity|].
  intros Hle. by vm_compute in Hle.
Qed.


(** Black against white, 8 x 8: one region, and it has no severity. *)
Lemma region_without_severity :
  ∃ sim reg diff_bytes,
    compute_ssim_and_diff (F:=Q) (D:=Q) ExactLib.black8 ExactLib.white8
    = Ret (sim, [reg], diff_bytes) ∧
    reg = region_dict 0 0 8 8 64 ∧
    reg !! "severity" = None.
Proof.
  eexists _, _, _. split_and!; [vm_compute; reflexivity|..];
    by vm_compute.
Qed.

(** The region of black against white has area 64: no severity of its
    own, [minor] in the stored row. *)
Lemma region_severity_witness :
  let reg := region_dict 0 0 8 8 64 in
  reg !! "severity" = None ∧
  dom reg = ({["x"; "y"; "width"; "height"; "area"]} : gset string) ∧
  ∃ w h,
    reg !! "width" = Some w ∧ reg !! "height" = Some h ∧
    reg !! "area" = Some (w * h) ∧
    let cd := change_detail (Some "42") reg "No AI analysis performed." in
    (cd_severity cd = "major" ↔ 1000 < w * h) ∧
    (cd_severity cd = "minor" ↔ w * h ≤ 1000).
Proof.
  intros reg.
  apply (region_severity (F:=Q) (D:=Q) ExactLib.black8 ExactLib.white8
           (100 # 10001)%Q [reg] None reg).
  - vm_compute. reflexivity.
  - by left.
Defined.



(** * Further properties *)

(** ** Repeated scans of one page *)

(** The visited set enters the filter pipeline through the membership test
    alone. *)
Lemma valid_item_visited visited el :
  valid_item visited el =
  match valid_item ∅ el with
  | Some item =>
    if decide (it_signature item ∈ visited) then None else Some item
  | None => None
  end.
Proof.
  unfold valid_item, try_except.
  destruct (el_is_displayed el) as [|[]]; simpl; try done.
  destruct (el_is_enabled el) as [|[]]; simpl; try done.
  destruct (is_safe_element el); simpl; try done.
  destruct (get_element_signature el) as [sig|]; simpl; try done.
  destruct (PyStr.truthy sig); simpl; try done.
  rewrite (bool_decide_eq_false_2 (sig ∈ (∅ : gset string)))
    by set_solver.
  destruct (el_location el) as [|loc]; simpl.
  { by destruct (bool_decide (sig ∈ visited)). }
  destruct (el_size el) as [|size]; simpl.
  { by destruct (bool_decide (sig ∈ visited)). }
  destruct (el_text el) as [|t]; simpl.
  { by destruct (bool_decide (sig ∈ visited)). }
  destruct (py_or _ _) as [|a]; simpl.
  { by destruct (bool_decide (sig ∈ visited)). }
  destruct (py_or a _) as [|[text|]]; simpl;
    try by destruct (bool_decide (sig ∈ visited)).
  case_bool_decide; by case_decide.
Qed.

Lemma valid_elements_visited visited candidates :
  valid_elements visited candidates =
  filter (λ item, it_signature item ∉ visited)
         (valid_elements ∅ candidates).
Proof.
  unfold valid_elements.
  induction candidates as [|el candidates IH]; simpl; [done|].
  rewrite valid_item_visited.
  destruct (valid_item ∅ el) as [item|]; simpl; [|exact IH].
  destruct (decide (it_signature item ∈ visited)) as [Hin|Hin].
  - rewrite filter_cons_False by (by intros ?). exact IH.
  - rewrite filter_cons_True by done. f_equal. exact IH.
Qed.

Lemma insert_item_filter_out (P : Item → Prop) `{!∀ i, Decision (P i)}
    k l :
  ¬ P k → filter P (insert_item k l) = filter P l.
Proof.
  intros Hk. induction l as [|h t IH]; simpl.
  - by rewrite filter_cons_False.
  - destruct (key_ltb (sort_key h) (sort_key k)).
    + rewrite !filter_cons. by rewrite IH.
    + by rewrite filter_cons_False.
Qed.

Lemma insert_item_first k l :
  Forall (key_le k) l → insert_item k l = k :: l.
Proof.
  destruct l as [|h t]; [done|]. intros [Hh _]%Forall_cons. simpl.
  unfold key_le in Hh. by rewrite Hh.
Qed.

Lemma insert_item_filter_in (P : Item → Prop) `{!∀ i, Decision (P i)}
    k l :
  P k → StronglySorted key_le l →
  filter P (insert_item k l) = insert_item k (filter P l).
Proof.
  intros Hk. induction 1 as [|h t Hs IH Hh]; simpl.
  - by rewrite filter_cons_True.
  - destruct (key_ltb (sort_key h) (sort_key k)) eqn:Hlt.
    + rewrite !filter_cons. case_decide.
      * simpl. by rewrite Hlt, IH.
      * apply IH.
    + rewrite (filter_cons_True P k) by done.
      symmetry. apply insert_item_first.
      apply Forall_forall. intros x [_ Hx]%list_elem_of_filter.
      apply elem_of_cons in Hx as [->|Hx]; [done|].
      rewrite Forall_forall in Hh.
      eapply key_le_trans; [exact Hlt|by apply Hh].
Qed.

(** A stable sort commutes with a filter. *)
Lemma sort_items_filter (P : Item → Prop) `{!∀ i, Decision (P i)} l :
  sort_items (filter P l) = filter P (sort_items l).
Proof.
  induction l as [|k l IH]; simpl; [done|].
  rewrite filter_cons. case_decide as Hk.
  - simpl. rewrite IH. symmetry.
    apply insert_item_filter_in; [done|apply sort_items_sorted].
  - rewrite IH. symmetry. by apply insert_item_filter_out.
Qed.

Lemma ranked_visited visited page :
  ranked visited page =
  filter (λ item, it_signature item ∉ visited) (ranked ∅ page).
Proof.
  unfold ranked. by rewrite valid_elements_visited, sort_items_filter.
Qed.

Lemma unseen_subset seen seen' l :
  seen ⊆ seen' →
  unseen seen' l =
  unseen seen' (filter (λ item, it_signature item ∉ seen) l).
Proof.
  revert seen'. induction l as [|h t IH]; intros seen' Hsub; simpl;
    [done|].
  destruct (decide (it_signature h ∈ seen)) as [Hh|Hh].
  - rewrite filter_cons_False by (by intros ?).
    rewrite decide_True by set_solver. by apply IH.
  - rewrite filter_cons_True by done. simpl.
    destruct (decide (it_signature h ∈ seen')); [by apply IH|].
    f_equal. apply IH. set_solver.
Qed.

Lemma unseen_head seen l item rest :
  filter (λ i, it_signature i ∉ seen) l = item :: rest →
  unseen seen l = item :: unseen (seen ∪ {[ it_signature item ]}) l.
Proof.
  induction l as [|h t IH]; simpl; [done|].
  destruct (decide (it_signature h ∈ seen)) as [Hh|Hh].
  - rewrite filter_cons_False by (by intros ?). intros Hf.
    rewrite decide_True by set_solver. by apply IH.
  - rewrite filter_cons_True by done. intros [= -> <-].
    by rewrite decide_True by set_solver.
Qed.

Lemma unseen_nil seen l :
  filter (λ i, it_signature i ∉ seen) l = [] → unseen seen l = [].
Proof. intros Hf. by rewrite (unseen_subset seen seen), Hf. Qed.

Lemma get_next_interactive_element_head now self page :
  get_next_interactive_element now self page =
  match ranked (visited_signatures self) page with
  | [] => (None, self)
  | item :: _ => (Some (selection_of item), mark_visited now self item)
  end.
Proof.
  unfold get_next_interactive_element, ranked.
  destruct (valid_elements (visited_signatures self)
              (collect_candidates page)) as [|i l] eqn:Hs; [done|].
  pose proof (sort_items_perm (i :: l)) as Hperm.
  destruct (sort_items (i :: l)) as [|item rest] eqn:Hsort.
  { by apply Permutation_nil_cons in Hperm. }
  apply select_first_head.
  apply (valid_elements_unvisited _ (collect_candidates page)).
  rewrite Hs, <- Hperm. by left.
Qed.

(** X1: on a page that does not change, successive scans select the
    ranked survivors in rank order, every signature once (an item whose
    signature was selected before is skipped), and once they are used up
    every further scan returns nothing; the log grows by the signatures
    selected, in that order. *)
Theorem scan_repeatedly_order page nows self :
  let order := unseen (visited_signatures self) (ranked ∅ page) in
  (scan_repeatedly page nows self).1 = selections (length nows) order ∧
  log_signatures (scan_repeatedly page nows self).2 =
  log_signatures self ++ take (length nows) (it_signature <$> order).
Proof.
  revert self. induction nows as [|now later IH]; intros self order.
  { simpl. by rewrite app_nil_r. }
  cbn [scan_repeatedly length].
  pose proof (get_next_interactive_element_head now self page) as Hsel.
  rewrite ranked_visited in Hsel.
  destruct (filter _ (ranked ∅ page)) as [|item rest] eqn:Hf.
  - rewrite Hsel. specialize (IH self). cbn zeta in IH.
    destruct (scan_repeatedly page later self) as [founds self''].
    destruct IH as [IH1 IH2]. simpl in IH1, IH2.
    subst order. rewrite (unseen_nil _ _ Hf) in *.
    simpl. split.
    + f_equal. rewrite IH1. by destruct (length later).
    + rewrite IH2. by destruct (length later).
  - rewrite Hsel.
    specialize (IH (mark_visited now self item)). cbn zeta in IH.
    destruct (scan_repeatedly page later (mark_visited now self item))
      as [founds self''].
    destruct IH as [IH1 IH2]. simpl in IH1, IH2.
    subst order. rewrite (unseen_head _ _ _ _ Hf).
    simpl. split.
    + by rewrite IH1.
    + rewrite IH2, log_signatures_mark, <- app_assoc. done.
Qed.


(** ** Signatures *)

Lemma py_or_truthy a b v :
  py_or a b = Ret v → (∀ w, b = Ret w → truthy_opt w = true) →
  truthy_opt v = true.
Proof.
  unfold py_or. destruct (truthy_opt a) eqn:Ha.
  - by intros [= <-].
  - intros Hb Hall. by apply Hall.
Qed.

(** The text chosen for the signature is never empty: the chain ends in
    the literal ["element"]. *)
Lemma signature_text_nonempty el text :
  signature_text el = Ret text → text ≠ "".
Proof.
  unfold signature_text.
  destruct (el_text el) as [|t]; simpl; [done|].
  destruct (py_or (Some (PyStr.strip t)) _) as [|a]; simpl; [done|].
  destruct (py_or a _) as [|b]; simpl; [done|].
  destruct (py_or b _) as [|c]; simpl; [done|].
  destruct (py_or c _) as [|d] eqn:Hd; simpl; [done|].
  apply py_or_truthy in Hd; [|by intros w [= <-]].
  destruct d as [s|]; [|done]. intros [= <-]. by destruct s.
Qed.

Lemma take_length n s : (String.length (PyStr.take n s) ≤ n)%nat.
Proof.
  revert s. induction n as [|n IH]; intros [|c s]; simpl; try lia.
  specialize (IH s). lia.
Qed.

Lemma take_nonempty n s : s ≠ "" → PyStr.take (S n) s ≠ "".
Proof. by destruct s. Qed.

Arguments PyStr.take : simpl never.
Arguments PyStr.strip : simpl never.

(** X2: a signature is the tag, the first thirty characters of the chosen
    text, and the position, joined by underscores; the text part is not
    empty and the signature is not the empty string, so [not sig] holds
    for [None] only. *)
Theorem get_element_signature_shape el sig :
  get_element_signature el = Some sig →
  ∃ tag text loc,
    el_tag_name el = Ret tag ∧ signature_text el = Ret text ∧
    el_location el = Ret loc ∧
    sig = tag +:+ "_" +:+ PyStr.take 30 text +:+ "_" +:+
          pretty (loc_x loc) +:+ "_" +:+ pretty (loc_y loc) ∧
    PyStr.take 30 text ≠ "" ∧
    (String.length (PyStr.take 30 text) ≤ 30)%nat ∧
    PyStr.truthy sig = true.
Proof.
  unfold get_element_signature, try_except.
  destruct (signature_text el) as [|text] eqn:Htext; simpl; [done|].
  destruct (el_location el) as [|loc]; simpl; [done|].
  destruct (el_tag_name el) as [|tag]; simpl; [done|].
  intros [= <-]. exists tag, text, loc.
  split_and!; try done.
  - apply take_nonempty. by eapply signature_text_nonempty.
  - apply take_length.
  - destruct tag; done.
Qed.

Lemma signature_text_visible el t :
  el_text el = Ret t → PyStr.strip t ≠ "" →
  signature_text el = Ret (PyStr.strip t).
Proof.
  intros Ht Hne. unfold signature_text. rewrite Ht. simpl.
  destruct (PyStr.strip t) as [|c s] eqn:Hs; [done|]. done.
Qed.

(** X3: when two elements have the same tag and position and visible
    texts that agree on their first thirty characters, their signatures
    are equal, whatever their attributes are and even if reading them
    raises; once one of them is visited the other is dropped by the
    scan. *)
Theorem signature_collision el1 el2 t1 t2 :
  el_text el1 = Ret t1 → el_text el2 = Ret t2 →
  PyStr.strip t1 ≠ "" → PyStr.strip t2 ≠ "" →
  PyStr.take 30 (PyStr.strip t1) = PyStr.take 30 (PyStr.strip t2) →
  el_tag_name el1 = el_tag_name el2 →
  el_location el1 = el_location el2 →
  get_element_signature el1 = get_element_signature el2 ∧
  ∀ sig visited,
    get_element_signature el1 = Some sig → sig ∈ visited →
    valid_item visited el2 = None.
Proof.
  intros H1 H2 Hn1 Hn2 Htake Htag Hloc.
  assert (get_element_signature el1 = get_element_signature el2) as Heq.
  { unfold get_element_signature.
    rewrite (signature_text_visible el1 t1), (signature_text_visible el2 t2)
      by done.
    rewrite Htag, Hloc. simpl.
    destruct (el_location el2); simpl; [done|].
    destruct (el_tag_name el2); simpl; [done|]. by rewrite Htake. }
  split; [done|]. intros sig visited Hsig Hin.
  rewrite Heq in Hsig. unfold valid_item, try_except.
  destruct (el_is_displayed el2) as [|[]]; simpl; try done.
  destruct (el_is_enabled el2) as [|[]]; simpl; try done.
  destruct (is_safe_element el2); simpl; try done.
  rewrite Hsig. simpl.
  rewrite (bool_decide_eq_true_2 (sig ∈ visited)) by done.
  by rewrite orb_true_r.
Qed.

(** The two long labels share their signature. *)
Lemma signature_collision_witness :
  get_element_signature LongLabels.first
  = get_element_signature LongLabels.second ∧
  ∀ sig visited,
    get_element_signature LongLabels.first = Some sig → sig ∈ visited →
    valid_item visited LongLabels.second = None.
Proof.
  apply (signature_collision LongLabels.first LongLabels.second
           "Quarterly revenue report for the north region"
           "Quarterly revenue report for the south region");
    by vm_compute.
Defined.

Lemma get_element_signature_shape_witness :
  ∃ tag text loc,
    el_tag_name LongLabels.first = Ret tag ∧
    signature_text LongLabels.first = Ret text ∧
    el_location LongLabels.first = Ret loc ∧
    "a_Quarterly revenue report for t_40_120"
    = tag +:+ "_" +:+ PyStr.take 30 text +:+ "_" +:+
      pretty (loc_x loc) +:+ "_" +:+ pretty (loc_y loc) ∧
    PyStr.take 30 text ≠ "" ∧
    (String.length (PyStr.take 30 text) ≤ 30)%nat ∧
    PyStr.truthy "a_Quarterly revenue report for t_40_120" = true.
Proof.
  apply (get_element_signature_shape LongLabels.first). by vm_compute.
Defined.

(** ** What a scan may return *)

Lemma valid_item_text visited el item :
  valid_item visited el = Some item → it_text item ≠ "".
Proof.
  unfold valid_item, try_except.
  destruct (el_is_displayed el) as [|[]]; simpl; try done.
  destruct (el_is_enabled el) as [|[]]; simpl; try done.
  destruct (is_safe_element el); simpl; try done.
  destruct (get_element_signature el) as [sig|]; simpl; try done.
  destruct (PyStr.truthy sig); simpl; try done.
  destruct (bool_decide (sig ∈ visited)); simpl; try done.
  destruct (el_location el) as [|loc]; simpl; try done.
  destruct (el_size el) as [|size]; simpl; try done.
  destruct (el_text el) as [|t]; simpl; try done.
  destruct (py_or _ _) as [|a]; simpl; try done.
  destruct (py_or a _) as [|b] eqn:Hb; simpl; try done.
  apply py_or_truthy in Hb; [|by intros w [= <-]].
  destruct b as [text|]; [|done]. intros [= <-]. simpl.
  by destruct text.
Qed.

Lemma collect_candidates_elem page el :
  el ∈ collect_candidates page ↔
  ∃ selector l, selector ∈ selectors ∧ page selector = Ret l ∧ el ∈ l.
Proof.
  unfold collect_candidates.
  rewrite list_elem_of_In, in_flat_map. split.
  - intros (selector & Hs & Hel). exists selector.
    destruct (page selector) as [|l] eqn:Hp; [done|].
    exists l. split_and!; [by apply list_elem_of_In|done|].
    by apply list_elem_of_In.
  - intros (selector & l & Hs & Hp & Hel). exists selector.
    split; [by apply list_elem_of_In|].
    rewrite Hp. by apply list_elem_of_In.
Qed.

(** X4: an element returned by a scan was found by one of the six
    selectors, is displayed and enabled, passed the safety check, and has
    a signature that was not visited before and is visited now; its label
    is not empty.  A scan returns nothing exactly when no candidate
    survives the filter. *)
Theorem get_next_interactive_element_sound now self page :
  match get_next_interactive_element now self page with
  | (Some (el, text), self') =>
    (∃ selector l,
       selector ∈ selectors ∧ page selector = Ret l ∧ el ∈ l) ∧
    el_is_displayed el = Ret true ∧
    el_is_enabled el = Ret true ∧
    is_safe_element el = true ∧
    text ≠ "" ∧
    ∃ sig,
      get_element_signature el = Some sig ∧
      (sig ∉ visited_signatures self) ∧
      visited_signatures self' = visited_signatures self ∪ {[ sig ]}
  | (None, self') =>
    self' = self ∧
    valid_elements (visited_signatures self) (collect_candidates page) = []
  end.
Proof.
  rewrite get_next_interactive_element_head. unfold ranked.
  set (survivors := valid_elements _ _).
  pose proof (sort_items_perm survivors) as Hperm.
  destruct (sort_items survivors) as [|item rest] eqn:Hsort.
  - split; [done|]. by apply Permutation_nil_l in Hperm.
  - assert (item ∈ survivors) as Hin by (rewrite <- Hperm; by left).
    unfold survivors, valid_elements in Hin.
    apply list_elem_of_omap in Hin as (el & Hel & Hv).
    pose proof (valid_item_text _ _ _ Hv) as Htext.
    apply valid_item_Some in Hv as (H1 & H2 & H3 & H4 & H5 & H6 & _).
    unfold selection_of. rewrite H6. split_and!; try done.
    + by apply collect_candidates_elem.
    + by exists (it_signature item).
Qed.

(** ** The visited set and the log *)

Lemma visited_eq_log_get_next now self page :
  visited_signatures self = list_to_set (log_signatures self) →
  visited_signatures (get_next_interactive_element now self page).2
  = list_to_set
      (log_signatures (get_next_interactive_element now self page).2).
Proof.
  intros Heq.
  destruct (get_next_interactive_element_cases now self page)
    as [->|(item & _ & ->)]; [done|].
  cbn [snd]. rewrite log_signatures_mark, list_to_set_app_L. simpl.
  by rewrite Heq, union_empty_r_L.
Qed.

(** X5: in a session of one explorer the visited set is exactly the set
    of logged signatures and has as many members as the log has entries;
    a longer session only adds to both: the visited set never shrinks and
    the earlier log is a prefix of the later one. *)
Theorem visited_signatures_log scans more :
  visited_signatures (scan_session scans)
  = list_to_set (log_signatures (scan_session scans)) ∧
  size (visited_signatures (scan_session scans))
  = length (interaction_log (scan_session scans)) ∧
  visited_signatures (scan_session scans)
  ⊆ visited_signatures (scan_session (scans ++ more)) ∧
  interaction_log (scan_session scans)
  `prefix_of` interaction_log (scan_session (scans ++ more)).
Proof.
  assert (∀ scans self,
            visited_signatures self = list_to_set (log_signatures self) →
            let self' :=
              foldl (λ self scan,
                       (get_next_interactive_element scan.1 self scan.2).2)
                    self scans in
            visited_signatures self' = list_to_set (log_signatures self') ∧
            visited_signatures self ⊆ visited_signatures self' ∧
            interaction_log self `prefix_of` interaction_log self')
    as Hfold.
  { clear. intros scans.
    induction scans as [|[now page] scans IH]; intros self Heq; simpl.
    { done. }
    destruct (IH _ (visited_eq_log_get_next now self page Heq))
      as (IH1 & IH2 & IH3).
    split_and!; [done| |].
    - etrans; [|exact IH2].
      destruct (get_next_interactive_element_cases now self page)
        as [->|(item & _ & ->)]; [done|]. simpl.
      apply union_subseteq_l.
    - etrans; [|exact IH3].
      destruct (get_next_interactive_element_cases now self page)
        as [->|(item & _ & ->)]; [done|]. simpl.
      by apply prefix_app_r. }
  destruct (Hfold scans new_explorer) as (H1 & _ & _); [done|].
  split_and!.
  - done.
  - unfold scan_session in *. rewrite H1.
    pose proof (proj1 (foldl_scan_inv scans new_explorer explorer_inv_new))
      as Hnd.
    rewrite size_list_to_set by done.
    unfold log_signatures. by rewrite length_fmap.
  - unfold scan_session. rewrite foldl_app. by apply Hfold.
  - unfold scan_session. rewrite foldl_app. by apply Hfold.
Qed.


(** ** Symmetry and identity of the comparison *)

Section CompareMore.
Context {F D : Type} `{!Numeric F D} `{!OpenCV F}.

Lemma zip_with_comm {A B} (f : A → A → B) (a b : list A) :
  (∀ x y, f x y = f y x) → zip_with f a b = zip_with f b a.
Proof.
  intros Hf. revert b. induction a as [|x a IH]; intros [|y b]; simpl;
    try done.
  by rewrite Hf, IH.
Qed.

Lemma grid_zip_comm {A B} (f : A → A → B) (a b : grid A) :
  (∀ x y, f x y = f y x) → grid_zip f a b = grid_zip f b a.
Proof.
  intros Hf. unfold grid_zip. apply zip_with_comm.
  intros x y. by apply zip_with_comm.
Qed.

Lemma gray_pair_swap img1 img2 :
  gray_pair img2 img1 = ((gray_pair img1 img2).2, (gray_pair img1 img2).1).
Proof.
  unfold gray_pair.
  destruct (shape img1) as [h1 w1], (shape img2) as [h2 w2]. simpl.
  by rewrite (Z.min_comm w2 w1), (Z.min_comm h2 h1).
Qed.

Lemma ssim_map_swap gray1 gray2 :
  add_mul_commute → ssim_map gray1 gray2 = ssim_map gray2 gray1.
Proof.
  intros [Hadd Hmul]. unfold ssim_map, ssim_num, ssim_den.
  unfold mul_arr, add_arr.
  rewrite (grid_zip_comm f_mul (GaussianBlur gray1) (GaussianBlur gray2))
    by done.
  rewrite (grid_zip_comm f_mul gray1 gray2) by done.
  f_equal. f_equal.
  - f_equal. by apply grid_zip_comm.
  - f_equal. by apply grid_zip_comm.
Qed.

Lemma compare_arrays_swap img1 img2 :
  add_mul_commute → compare_arrays img1 img2 = compare_arrays img2 img1.
Proof.
  intros Hcomm. unfold compare_arrays. rewrite (gray_pair_swap img1 img2).
  destruct (gray_pair img1 img2) as [gray1 gray2]. simpl.
  by rewrite (ssim_map_swap gray1 gray2).
Qed.

(** X6: when the addition and the multiplication of the array elements
    are commutative, the comparison does not depend on the order of the
    two images: it raises for both orders or returns the same score, the
    same regions and the same difference image. *)
Theorem compute_ssim_and_diff_symmetric b1 b2 :
  add_mul_commute →
  compute_ssim_and_diff b1 b2 = compute_ssim_and_diff b2 b1.
Proof.
  intros Hcomm. rewrite !compute_ssim_and_diff_unfold.
  destruct (_bytes_to_rgb_array b1) as [|img1],
           (_bytes_to_rgb_array b2) as [|img2]; try done.
  by rewrite compare_arrays_swap.
Qed.

Lemma pixel_constant_grid {A B} (f : A → B) (v : B) (g : grid A) p w :
  (∀ a, f a = v) → pixel (grid_map f g) p = Some w → w = v.
Proof.
  intros Hf. rewrite pixel_grid_map.
  destruct (pixel g p) as [a|]; simpl; [|done].
  intros [= <-]. apply Hf.
Qed.

Lemma compute_ssim_and_diff_regions_total b1 b2 img1 img2 :
  _bytes_to_rgb_array b1 = Ret img1 →
  _bytes_to_rgb_array b2 = Ret img2 →
  ∃ sim diff_bytes,
    compute_ssim_and_diff b1 b2 =
    Ret (sim,
         regions_of
           (findContours
              (threshold_binary (dissimilarity img1 img2) 30 255)),
         diff_bytes).
Proof.
  intros H1 H2. rewrite compute_ssim_and_diff_unfold, H1, H2.
  unfold compare_arrays, dissimilarity, similarity_map.
  destruct (gray_pair img1 img2) as [gray1 gray2]. simpl.
  by eexists _, _.
Qed.

(** X7: an image compared with itself has no change region, provided that
    doubling is adding, a finite non-zero number divided by itself is one,
    full similarity scales to an 8-bit value within the threshold, the
    image is not degenerate, and every contour [findContours] returns
    outlines a component of the foreground. *)
Theorem compute_ssim_and_diff_identity_regions b img :
  doubling_is_adding →
  self_division_is_one →
  full_similarity_is_background →
  _bytes_to_rgb_array b = Ret img →
  nondegenerate img →
  (let bin := threshold_binary (dissimilarity img img) 30 255 in
   Forall (outlines (nonzero bin)) (findContours bin)) →
  ∃ sim diff_bytes,
    compute_ssim_and_diff b b = Ret (sim, [], diff_bytes).
Proof.
  intros Hdouble Hdiv Hbg Hdec [_ Hden] Hcontract.
  assert (findContours
            (threshold_binary (dissimilarity img img) 30 255) = [])
    as Hnone.
  { destruct (findContours _) as [|cnt rest] eqn:Hc; [done|].
    cbn zeta in Hcontract. rewrite Hc in Hcontract.
    apply Forall_cons in Hcontract as [(Hne & seed & Hin & _) _].
    destruct cnt as [|p cnt]; [done|].
    destruct (Hin p ltac:(by left)) as [Hseed _].
    apply nonzero_threshold_binary in Hseed as (v & Hv & Hlt).
    exfalso. revert Hv.
    unfold dissimilarity, similarity_map, similarity_den in *.
    assert ((gray_pair img img).1 = (gray_pair img img).2) as Hsame.
    { unfold gray_pair. by destruct (shape img). }
    rewrite <- Hsame in *.
    rewrite ssim_map_same by done.
    unfold diff_norm. rewrite grid_map_map. intros Hv.
    apply (pixel_constant_grid _
             (f_to_uint8 (f_mul (f_clip01 (f_sub f_one f_one)) f_255)))
      in Hv; [|done].
    unfold full_similarity_is_background in Hbg. lia. }
  destruct (compute_ssim_and_diff_regions_total b b img img Hdec Hdec)
    as (sim & diff_bytes & ->).
  rewrite Hnone. by eexists _, _.
Qed.

End CompareMore.


Lemma exact_add_mul_commute : add_mul_commute (F:=Q).
Proof. split; intros x y; simpl; apply Qred_complete; ring. Qed.

(** The two 2 x 1 test images, compared in both orders. *)
Lemma compute_ssim_and_diff_symmetric_witness :
  compute_ssim_and_diff (F:=Q) (D:=Q)
    ExactLib.dark_bright ExactLib.bright_dark
  = compute_ssim_and_diff (F:=Q) (D:=Q)
      ExactLib.bright_dark ExactLib.dark_bright.
Proof.
  apply (compute_ssim_and_diff_symmetric (F:=Q) (D:=Q)).
  exact exact_add_mul_commute.
Defined.

(** The image "black, white" against itself: no region. *)
Lemma compute_ssim_and_diff_identity_regions_witness :
  ∃ sim diff_bytes,
    compute_ssim_and_diff (F:=Q) (D:=Q)
      ExactLib.dark_bright ExactLib.dark_bright
    = Ret (sim, [], diff_bytes).
Proof.
  apply (compute_ssim_and_diff_identity_regions (F:=Q) (D:=Q)
           ExactLib.dark_bright [[(0, 0, 0); (255, 255, 255)]]).
  - exact ExactFacts.doubling.
  - exact ExactFacts.self_division.
  - unfold full_similarity_is_background. by vm_compute.
  - vm_compute. reflexivity.
  - split.
    + vm_compute. discriminate.
    + vm_compute. repeat constructor.
  - cbn zeta.
    assert (findContours (F:=Q)
              (threshold_binary
                 (dissimilarity (F:=Q) [[(0, 0, 0); (255, 255, 255)]]
                                       [[(0, 0, 0); (255, 255, 255)]])
                 30 255) = []) as -> by (vm_compute; reflexivity).
    constructor.
Defined.


(** ** Processing a run *)

Lemma bucket_entries_app items doc_images :
  ∃ more, bucket_entries items doc_images = doc_images ++ more ∧
          Forall (λ d, doc_url d = None) more.
Proof.
  revert doc_images. induction items as [|item rest IH];
    intros doc_images; simpl.
  - exists []. by rewrite app_nil_r.
  - destruct (item_path item) as [|p].
    + exists []. by rewrite app_nil_r.
    + destruct (IH (doc_images ++ [{| doc_path := p; doc_url := None |}]))
        as (more & -> & Hmore).
      exists ({| doc_path := p; doc_url := None |} :: more).
      rewrite <- app_assoc. split; [done|]. by constructor.
Qed.

(** X8: the list of images of a run is never empty.  When the documents
    table has rows, the list has one entry per row, in order, and the
    bucket listing plays no part; otherwise every entry, from the bucket
    listing or the sample placeholder, has no URL. *)
Theorem select_doc_images_spec docs_data bucket_list :
  select_doc_images docs_data bucket_list ≠ [] ∧
  match docs_data with
  | Some (row :: rows) =>
    select_doc_images docs_data bucket_list = doc_of_row <$> row :: rows
  | _ =>
    Forall (λ d, doc_url d = None)
           (select_doc_images docs_data bucket_list)
  end.
Proof.
  assert (∀ l : list DocImage,
            match l with [] => [sample_placeholder] | _ :: _ => l end ≠ [])
    as Hne by (by intros []).
  split; [apply Hne|].
  assert (Forall (λ d, doc_url d = None)
            match
              match bucket_list with
              | Ret (Some items) => bucket_entries items []
              | _ => []
              end
            with
            | [] => [sample_placeholder]
            | _ :: _ =>
              match bucket_list with
              | Ret (Some items) => bucket_entries items []
              | _ => []
              end
            end) as Hbucket.
  { destruct bucket_list as [|[items|]]; try by repeat constructor.
    destruct (bucket_entries_app items []) as (more & -> & Hmore).
    simpl. destruct more; [by repeat constructor|done]. }
  unfold select_doc_images.
  destruct docs_data as [[|row rows]|]; simpl; done.
Qed.

Lemma Qle_bool_false x y : Qle_bool x y = false ↔ (y < x)%Q.
Proof.
  rewrite <- not_true_iff_false, Qle_bool_iff. split.
  - apply Qnot_le_lt.
  - apply Qlt_not_le.
Qed.

Section ProcessRunProperties.
Context {F : Type} `{!Numeric F Q} `{!OpenCV F}.

(** X9: the status of a comparison is [error] exactly when there is no
    similarity (an image is missing, the comparison raised, or the
    project has no tolerance), [matched] when the similarity reaches the
    tolerance and [changed] when it is below it.  The severity stored with
    it never raises; it is [major] or [minor] for every changed
    comparison, [None] for every error, and for a matched comparison
    [major] when the similarity is below 90 and [None] otherwise. *)
Theorem compare_document_status doc_bytes screenshot_bytes tolerance :
  let c := compare_document doc_bytes screenshot_bytes tolerance in
  match cmp_similarity c, tolerance with
  | None, _ =>
    cmp_status c = "error" ∧
    change_severity (cmp_similarity c) tolerance = Ret None
  | Some sim, None => False
  | Some sim, Some tol =>
    ((tol <= sim)%Q →
     cmp_status c = "matched" ∧
     change_severity (cmp_similarity c) tolerance =
     Ret (if Qle_bool 90 sim then None else Some "major")) ∧
    ((sim < tol)%Q →
     cmp_status c = "changed" ∧
     change_severity (cmp_similarity c) tolerance =
     Ret (Some (if Qle_bool 90 sim then "minor" else "major")))
  end.
Proof.
  intros c. subst c. unfold compare_document.
  destruct (truthy_bytes doc_bytes && truthy_bytes screenshot_bytes);
    [|done].
  destruct (compute_ssim_and_diff _ _) as [|[[sim regions] diff]];
    [done|].
  destruct tolerance as [tol|]; [|done]. simpl. split.
  - intros Hle. apply Qle_bool_iff in Hle. rewrite Hle. simpl.
    by destruct (Qle_bool 90 sim).
  - intros Hlt. apply Qle_bool_false in Hlt. rewrite Hlt. simpl.
    by destruct (Qle_bool 90 sim).
Qed.

(** X10: rows are stored in [change_details] only for a comparison whose
    status is [changed] and whose own row was returned by the insert, one
    per region.  Every such row carries the four numbers of the region's
    box, whose area is at least 50, and its severity is [major] exactly
    when that area exceeds 1000. *)
Theorem change_rows_spec doc_bytes screenshot_bytes tolerance
    comp_row_id analysis :
  let c := compare_document doc_bytes screenshot_bytes tolerance in
  let rows := change_rows c comp_row_id analysis in
  (rows ≠ [] → cmp_status c = "changed" ∧ is_Some comp_row_id) ∧
  (cmp_status c = "changed" → is_Some comp_row_id →
   length rows = length (cmp_regions c)) ∧
  Forall (λ cd,
    ∃ x y w h,
      cd_position_x cd = Some x ∧ cd_position_y cd = Some y ∧
      cd_width cd = Some w ∧ cd_height cd = Some h ∧
      50 ≤ w * h ∧
      (cd_severity cd = "major" ↔ 1000 < w * h) ∧
      (cd_severity cd = "minor" ↔ w * h ≤ 1000)) rows.
Proof.
  intros c rows. subst rows. unfold change_rows. split_and!.
  - destruct comp_row_id as [id|]; [|done].
    case_bool_decide; [|done]. intros _. by split.
  - intros Hst [id ->]. rewrite bool_decide_eq_true_2 by done.
    by rewrite length_fmap.
  - destruct comp_row_id as [id|]; [|constructor].
    case_bool_decide as Hst; [|constructor].
    apply Forall_fmap, Forall_forall. intros reg Hreg. simpl.
    assert (∃ x y w h, 50 ≤ w * h ∧ reg = region_dict x y w h (w * h))
      as (x & y & w & h & Harea & ->).
    { subst c. revert Hreg Hst. unfold compare_document.
      destruct (truthy_bytes doc_bytes && truthy_bytes screenshot_bytes);
        [|done].
      destruct (compute_ssim_and_diff _ _) as [|[[sim regions] diff]]
        eqn:Hc; [done|].
      destruct tolerance as [tol|]; [|done]. simpl. intros Hreg _.
      apply compute_ssim_and_diff_regions in Hc
        as (img1 & img2 & _ & _ & ->).
      apply regions_of_elem in Hreg
        as (cnt & x & y & w & h & _ & _ & Harea & ->).
      by exists x, y, w, h. }
    destruct (region_dict_lookup x y w h (w * h))
      as (Hx & Hy & Hw & Hh & Ha & _).
    exists x, y, w, h. unfold change_detail. simpl.
    rewrite Ha. simpl. split_and!; try done;
      destruct (1000 <? w * h) eqn:Hlt;
      [apply Z.ltb_lt in Hlt | apply Z.ltb_ge in Hlt
      |apply Z.ltb_lt in Hlt | apply Z.ltb_ge in Hlt];
      (split; intros ?; first [done | lia]).
Qed.

End ProcessRunProperties.


(** ** ScreenshotCapture *)

Section CaptureProperties.
Context {B : Type} `{!WebDriver B}.

Lemma returns_try_ret {A} (c : Driven B A) (a : A) :
  returns (driven_try c (driven_ret a)).
Proof.
  intros b. unfold driven_try, driven_ret.
  destruct (c b) as [b' [|a']]; simpl; eauto.
Qed.

Lemma returns_try {A} (c handler : Driven B A) :
  returns handler → returns (driven_try c handler).
Proof.
  intros Hh b. unfold driven_try.
  destruct (c b) as [b' [|a']]; simpl; eauto.
Qed.

Lemma full_page_capture_returns path :
  returns (ScreenshotCapture._full_page_capture path).
Proof. apply returns_try_ret. Qed.

Lemma driven_try_returns {A} (c handler : Driven B A) :
  returns c → ∀ b, driven_try c handler b = c b.
Proof.
  intros Hc b. unfold driven_try. destruct (Hc b) as [a Ha].
  destruct (c b) as [b' [|a']]; simpl in *; done.
Qed.

(** X11: [capture_web_screenshot] never raises, whatever the method and
    whatever the driver does; with the method ["full"] it is exactly
    [_full_page_capture], so its own fallback screenshot is never taken
    for that method. *)
Theorem capture_web_screenshot_returns cfg path method :
  returns (ScreenshotCapture.capture_web_screenshot cfg path method) ∧
  ∀ b, ScreenshotCapture.capture_web_screenshot cfg path "full" b
       = ScreenshotCapture._full_page_capture path b.
Proof.
  split.
  - unfold ScreenshotCapture.capture_web_screenshot.
    apply returns_try, returns_try_ret.
  - intros b. unfold ScreenshotCapture.capture_web_screenshot.
    rewrite bool_decide_eq_true_2 by done.
    apply driven_try_returns, full_page_capture_returns.
Qed.

Lemma save_then_true path b :
  (∀ p b, (save_screenshot p b).2 ≠ Raise) →
  ((_ ⇐ save_screenshot path ;; driven_ret true) b).2 = Ret true.
Proof.
  intros Hsave. unfold driven_bind, driven_ret.
  specialize (Hsave path b).
  by destruct (save_screenshot path b) as [b' [|ok]].
Qed.

Lemma full_page_capture_true path b :
  (∀ js b, (execute_script js b).2 ≠ Raise) →
  (∀ p b, (save_screenshot p b).2 ≠ Raise) →
  (ScreenshotCapture._full_page_capture path b).2 = Ret true.
Proof.
  intros Hjs Hsave.
  unfold ScreenshotCapture._full_page_capture, driven_try.
  unfold driven_bind at 1.
  pose proof (Hjs ScreenshotCapture.total_height_script b) as H1.
  destruct (execute_script _ b) as [b1 [|total]]; [done|].
  unfold driven_bind at 1.
  pose proof (Hjs "return window.innerHeight" b1) as H2.
  destruct (execute_script _ b1) as [b2 [|vh]]; [done|].
  unfold driven_bind at 1.
  pose proof (Hjs "return window.innerWidth" b2) as H3.
  destruct (execute_script _ b2) as [b3 [|vw]]; [done|].
  destruct (is_short_page total vh).
  - pose proof (save_then_true path b3 Hsave) as Hs.
    destruct ((_ ⇐ save_screenshot path ;; driven_ret true) b3)
      as [b4 [|ok]]; simpl in *; congruence.
  - match goal with
    | |- context [driven_bind ?c ?k b3] =>
        destruct (driven_bind c k b3) as [b4 [|ok]] eqn:Hcdp
    end.
    + pose proof (save_then_true path b4 Hsave) as Hs.
      destruct ((_ ⇐ save_screenshot path ;; driven_ret true) b4)
        as [b5 [|ok]]; simpl in *; congruence.
    + simpl. revert Hcdp.
      unfold driven_bind, driven_ret, ScreenshotCapture.result_data.
      repeat match goal with
             | |- context [execute_cdp_cmd ?n ?p ?b] =>
                 destruct (execute_cdp_cmd n p b) as [? [|?]]
             | |- context [write_decoded ?p ?d ?b] =>
                 destruct (write_decoded p d b) as [? [|?]]
             | |- context [match ?r with Some _ => _ | None => _ end] =>
                 destruct r
             end; congruence.
Qed.

(** X12: when reading the page dimensions and taking a viewport
    screenshot do not raise, the capture reports success for every
    method, whatever the CDP commands and the file write do and
    whatever [save_screenshot] itself returns. *)
Theorem capture_web_screenshot_true cfg path method b :
  (∀ js b, (execute_script js b).2 ≠ Raise) →
  (∀ p b, (save_screenshot p b).2 ≠ Raise) →
  (ScreenshotCapture.capture_web_screenshot cfg path method b).2
  = Ret true.
Proof.
  intros Hjs Hsave.
  unfold ScreenshotCapture.capture_web_screenshot, driven_try.
  case_bool_decide.
  { pose proof (full_page_capture_true path b Hjs Hsave) as Hf.
    destruct (ScreenshotCapture._full_page_capture path b)
      as [b' [|ok]]; simpl in *; congruence. }
  assert (∀ b, match (_ ⇐ save_screenshot path ;; driven_ret true) b with
               | (b', Raise) =>
                 match (_ ⇐ save_screenshot path ;; driven_ret true) b' with
                 | (b'', Raise) => driven_ret false b''
                 | done => done
                 end
               | done => done
               end.2 = Ret true) as Hsimple.
  { intros b0. pose proof (save_then_true path b0 Hsave) as Hs.
    destruct ((_ ⇐ save_screenshot path ;; driven_ret true) b0)
      as [b' [|ok]]; simpl in *; congruence. }
  case_bool_decide; [|apply Hsimple].
  destruct (PREFER_FULL_PAGE cfg); [|apply Hsimple].
  unfold driven_bind at 1.
  pose proof (full_page_capture_true path b Hjs Hsave) as Hf.
  destruct (ScreenshotCapture._full_page_capture path b)
    as [b' [|ok]]; simpl in *; [done|].
  injection Hf as ->. done.
Qed.

End CaptureProperties.

(** A long page, CDP commands that raise, and a [save_screenshot] that
    returns [False]: the capture still reports success. *)
Lemma capture_web_screenshot_true_witness :
  (ScreenshotCapture.capture_web_screenshot (B:=list string)
     default_config "out/screen_000_initial_full.png" "full" []).2
  = Ret true.
Proof.
  apply (capture_web_screenshot_true (B:=list string)); intros ? ?; done.
Defined.


(** ** Clicks and captures of a run *)

Section EngineMore.
Context {W : Type} `{!Selenium W}.

Lemma explore_step_counts self s :
  ∃ continue s' clicks captures,
    explore_step self s = (continue, s') ∧
    length (interaction_log (s_explorer s'))
    = (length (interaction_log (s_explorer s)) + clicks)%nat ∧
    length (s_screenshots s')
    = (length (s_screenshots s) + captures)%nat ∧
    (captures ≤ clicks ≤ 1)%nat.
Proof.
  destruct (explore_step_cases self s)
    as (continue & s' & Hstep & Hex & _ & Hshots).
  exists continue, s'.
  destruct (get_next_interactive_element_cases (clock (s_world s))
              (s_explorer s) (find_elements (s_world s)))
    as [Hnone|(item & _ & Hsome)].
  - exists 0%nat, 0%nat. rewrite Hnone in Hex, Hshots.
    destruct Hshots as [[-> _]|(? & ? & ? & ? & _)]; [|done].
    rewrite Hex. simpl. split_and!; [done|lia|lia|lia|lia].
  - rewrite Hsome in Hex. rewrite Hex. simpl.
    rewrite length_app. simpl.
    destruct Hshots as [[-> _]|(? & ? & path & _ & _ & _ & -> & _)].
    + exists 1%nat, 0%nat. split_and!; [done|lia|lia|lia|lia].
    + exists 1%nat, 1%nat. rewrite length_app. simpl.
      split_and!; [done|lia|lia|lia|lia].
Qed.

Lemma explore_loop_counts self n s :
  ∃ clicks captures,
    length (interaction_log (s_explorer (explore_loop self n s)))
    = (length (interaction_log (s_explorer s)) + clicks)%nat ∧
    length (s_screenshots (explore_loop self n s))
    = (length (s_screenshots s) + captures)%nat ∧
    (captures ≤ clicks ≤ n)%nat.
Proof.
  revert s. induction n as [|n IH]; intros s; simpl.
  { exists 0%nat, 0%nat. lia. }
  destruct (explore_step_counts self s)
    as (continue & s' & k & j & -> & Hk & Hj & Hkj).
  destruct continue.
  - destruct (IH s') as (k' & j' & Hk' & Hj' & Hkj').
    exists (k + k')%nat, (j + j')%nat. lia.
  - exists k, j. lia.
Qed.

(** X13: a run selects, and so clicks, at most [Config.MAX_SCREENSHOTS]
    elements, never two with the same signature, and it returns at most
    one capture per selected element besides the baseline. *)
Theorem run_session_clicks self url cfg :
  match run_session self url cfg with
  | Raise => True
  | Ret s =>
    let log := interaction_log (s_explorer s) in
    Z.of_nat (length log) ≤ Z.max 0 (MAX_SCREENSHOTS cfg) ∧
    (length (s_screenshots s) ≤ 1 + length log)%nat ∧
    NoDup (log_signature <$> log)
  end.
Proof.
  destruct (run_session self url cfg) as [|s] eqn:Hrun; [done|].
  pose proof (run_session_log_NoDup _ _ _ _ Hrun) as Hnd.
  apply run_session_capture_phases in Hrun as (w & ->).
  cbn zeta. split_and!; [| |exact Hnd]; clear Hnd;
    unfold capture_phases;
    match goal with
    | |- context [capture_web_screenshot w ?p] =>
        destruct (capture_web_screenshot w p) as [w1 captured]
    end;
    destruct captured; simpl;
    match goal with
    | |- context [if ?c then _ else _] => destruct c eqn:Hlt
    end; simpl; try lia;
    apply Z.ltb_lt in Hlt;
    match goal with
    | |- context [explore_loop self ?n ?s] =>
        destruct (explore_loop_counts self n s) as (k & j & -> & Hj & Hkj)
    end; simpl in *; lia.
Qed.

End EngineMore.


(** ** What is never clicked *)

Lemma has_avoid_keyword_empty : has_avoid_keyword "" = false.
Proof. by vm_compute. Qed.

Lemma is_safe_element_visible_text el t :
  is_safe_element el = true → el_text el = Ret t →
  has_avoid_keyword (PyStr.lower (PyStr.strip t)) = false ∧
  ∃ role, el_get_attribute el "role" = Ret role ∧
          is_dialog_role role = false.
Proof.
  rewrite is_safe_element_unfold. intros Hsafe Ht.
  destruct (safety_text el) as [|text] eqn:Htext; [done|].
  destruct (has_avoid_keyword text) eqn:Hkw; [done|].
  destruct (el_get_attribute el "role") as [|role]; [done|].
  apply negb_true_iff in Hsafe. split; [|by exists role].
  revert Htext. unfold safety_text. rewrite Ht. simpl.
  destruct (PyStr.strip t) as [|c s] eqn:Hs.
  - intros _. apply has_avoid_keyword_empty.
  - simpl. by intros [= <-].
Qed.

(** X14: no scan ever returns an element whose visible text, trimmed and
    lower-cased, contains a word of the denylist, nor an element whose
    role is [dialog] or [alertdialog]. *)
Theorem get_next_interactive_element_never_unsafe now self page :
  match (get_next_interactive_element now self page).1 with
  | None => True
  | Some (el, _) =>
    (∀ t bad,
       el_text el = Ret t → bad ∈ avoid_keywords →
       PyStr.contains bad (PyStr.lower (PyStr.strip t)) = false) ∧
    el_get_attribute el "role" ≠ Ret (Some "dialog") ∧
    el_get_attribute el "role" ≠ Ret (Some "alertdialog")
  end.
Proof.
  rewrite get_next_interactive_element_head. unfold ranked.
  set (survivors := valid_elements _ _).
  pose proof (sort_items_perm survivors) as Hperm.
  destruct (sort_items survivors) as [|item rest]; [done|]. simpl.
  assert (item ∈ survivors) as Hin by (rewrite <- Hperm; by left).
  unfold survivors, valid_elements in Hin.
  apply list_elem_of_omap in Hin as (el & _ & Hv).
  apply valid_item_Some in Hv as (_ & _ & Hsafe & _ & _ & -> & _).
  split_and!.
  - intros t bad Ht Hbad.
    destruct (is_safe_element_visible_text _ _ Hsafe Ht) as [Hkw _].
    unfold has_avoid_keyword in Hkw.
    destruct (PyStr.contains bad _) eqn:Hc; [|done].
    assert (existsb (λ b, PyStr.contains b (PyStr.lower (PyStr.strip t)))
              avoid_keywords = true) as Hex; [|congruence].
    apply existsb_exists. exists bad. by rewrite <- list_elem_of_In.
  - intros Hrole. revert Hsafe. rewrite is_safe_element_unfold, Hrole.
    destruct (safety_text el); [done|].
    destruct (has_avoid_keyword _); [done|].
    intros Hd. by vm_compute in Hd.
  - intros Hrole. revert Hsafe. rewrite is_safe_element_unfold, Hrole.
    destruct (safety_text el); [done|].
    destruct (has_avoid_keyword _); [done|].
    intros Hd. by vm_compute in Hd.
Qed.


(** ** A run on a page that does not change *)

Section StaticRun.
Context {W : Type} `{!Selenium W}.

Lemma explore_loop_static self page n s :
  (∀ w, find_elements w = page) →
  (∀ w el, (click_element w el).2 = true) →
  (∀ w path, (capture_web_screenshot w path).2 = true) →
  length (s_screenshots (explore_loop self n s))
  = (length (s_screenshots s) +
     n `min` length (unseen (visited_signatures (s_explorer s))
                            (ranked ∅ page)))%nat.
Proof.
  intros Hpage Hclick Hcapture. revert s.
  induction n as [|n IH]; intros s; cbn [explore_loop]; [lia|].
  unfold explore_step. rewrite Hpage.
  rewrite get_next_interactive_element_head, ranked_visited.
  destruct (filter _ (ranked ∅ page)) as [|item rest] eqn:Hf.
  - rewrite (unseen_nil _ _ Hf). simpl. lia.
  - rewrite (unseen_head _ _ _ _ Hf).
    unfold selection_of.
    pose proof (Hclick (s_world s) (it_element item)) as Hc.
    destruct (click_element (s_world s) (it_element item))
      as [w1 clicked]. simpl in Hc. subst clicked.
    match goal with
    | |- context [capture_web_screenshot w1 ?p] =>
        pose proof (Hcapture w1 p) as Hp;
        destruct (capture_web_screenshot w1 p) as [w2 captured]
    end.
    simpl in Hp. subst captured.
    rewrite IH. cbn [s_screenshots s_explorer mark_visited
                     visited_signatures length].
    rewrite length_app. simpl. lia.
Qed.

(** X15: on a page that does not change, with clicks and captures that
    always succeed, the run captures the baseline and then one image per
    ranked candidate of distinct signature, until the candidates or the
    budget [Config.MAX_SCREENSHOTS] are used up. *)
Theorem capture_phases_static self page cfg w :
  (∀ w, find_elements w = page) →
  (∀ w el, (click_element w el).2 = true) →
  (∀ w path, (capture_web_screenshot w path).2 = true) →
  length (s_screenshots (capture_phases self cfg w))
  = (1 + Z.to_nat (MAX_SCREENSHOTS cfg - 1)
         `min` length (unseen ∅ (ranked ∅ page)))%nat.
Proof.
  intros Hpage Hclick Hcapture. unfold capture_phases.
  match goal with
  | |- context [capture_web_screenshot w ?p] =>
      pose proof (Hcapture w p) as Hp;
      destruct (capture_web_screenshot w p) as [w1 captured]
  end.
  simpl in Hp. subst captured. cbn [s_count].
  destruct (1 <? MAX_SCREENSHOTS cfg) eqn:Hlt.
  - rewrite (explore_loop_static self page) by done. simpl. done.
  - apply Z.ltb_ge in Hlt. simpl.
    replace (Z.to_nat (MAX_SCREENSHOTS cfg - 1)) with 0%nat by lia.
    done.
Qed.

End StaticRun.

(** Three buttons, one of them "Logout", and a budget of five: the
    baseline and the two safe buttons. *)
Lemma capture_phases_static_witness :
  length (s_screenshots
            (capture_phases (W:=unit) EndlessPage.engine default_config ()))
  = 3%nat.
Proof.
  apply (capture_phases_static (W:=unit) EndlessPage.engine
           ThreeButtons.page default_config ()); done.
Defined.
